(** * movies-frontend: a verification model of the React application

    The repository is a client-side single-page application: a router
    ([src/main.jsx]) renders one of two pages inside a shared [Layout]
    ([src/components/layout.jsx]); the [Home] page ([src/pages/home.jsx])
    lists hard-coded movies and the [AddMovie] page
    ([src/pages/add-movie.jsx]) shows a form validated by a Zod schema.

    The development embeds
    - JavaScript values, doubles and the [Number(...)] coercion, property
      access;
    - the Zod schema of the add-movie form, the resolver and
      react-hook-form's [handleSubmit];
    - the JSX returned by [Layout], [Home] and [AddMovie] as element trees,
      and what React renders from them;
    - the router's matching of a location;
    - the application as a transition system over user and network events.
*)

From Stdlib Require Import ZArith Ascii String List Bool Lia.
From stdpp Require Import base option strings list gmap.

Set Default Proof Using "Type".
Set Warnings "-register-all".
Local Open Scope string_scope.
Local Open Scope list_scope.

(** ** JavaScript values *)

(** A finite double, [(-1)^sign * significand * 2^exponent], in the form
    IEEE 754 stores it: a normal number has its significand in
    [2^52, 2^53) and its exponent in [-1074, 971]; a subnormal number and
    zero have the exponent [-1074] and a smaller significand. A finite
    double has one such form, and the two zeros differ by their sign. *)
Record Double := {
  sign : bool;
  significand : Z;
  exponent : Z
}.

(** A JavaScript number. *)
Inductive Number :=
| NaN
| Infinity (negative : bool)
| Finite (d : Double).

(** [num / den / 2^e] as a fraction. *)
Definition scale (num den e : Z) : Z * Z :=
  if (0 <=? e)%Z then (num, den * 2 ^ e)%Z else (num * 2 ^ (- e), den)%Z.

(** The integer nearest to [n / d], a tie going to the even one. *)
Definition round_half_even (n d : Z) : Z :=
  let q := (n / d)%Z in
  let r := (n mod d)%Z in
  if ((d <? 2 * r) || ((d =? 2 * r) && Z.odd q))%Z then (q + 1)%Z else q.

(** The exponent of the leading bit of [num / den]. *)
Definition leading_exponent (num den : Z) : Z :=
  let l := (Z.log2 num - Z.log2 den)%Z in
  let '(n, d) := scale num den l in
  if (d <=? n)%Z then l else (l - 1)%Z.

(** The Number value of the real number [num / den], taken negative when
    [negative]: the nearest double, a tie going to the even significand. The
    last place is 52 bits below the leading bit, and never below [2^-1074];
    what rounds to [2^1024] is an infinity, and zero keeps its sign. *)
Definition nearest (negative : bool) (num den : Z) : Number :=
  if (num <=? 0)%Z
  then Finite {| sign := negative; significand := 0; exponent := -1074 |}
  else
    let e := Z.max (leading_exponent num den - 52) (-1074) in
    let '(n, d) := scale num den e in
    let m := round_half_even n d in
    let '(m, e) := if (m =? 2 ^ 53)%Z then (2 ^ 52, e + 1)%Z else (m, e) in
    if (971 <? e)%Z then Infinity negative
    else Finite {| sign := negative; significand := m; exponent := e |}.

(** The Number value of an integer. *)
Definition of_Z (z : Z) : Number := nearest (z <? 0)%Z (Z.abs z) 1.

Arguments nearest : simpl never.
Arguments of_Z : simpl never.

(** The values that reach the application: form values, JSON data and the
    module-level constants. A string is its sequence of code units (one
    [ascii] per unit); an object is its list of own properties in insertion
    order, the first entry of a key being the property's value. *)
Inductive Value :=
| VUndefined
| VNull
| VBool (b : bool)
| VNumber (n : Number)
| VString (s : string)
| VArray (items : list Value)
| VObject (entries : list (string * Value)).

Definition int (z : Z) : Value := VNumber (of_Z z).
Arguments int : simpl never.
Definition str (s : string) : Value := VString s.

(** [obj[key]] on the own properties of an object. *)
Fixpoint lookup_entry (key : string) (entries : list (string * Value)) : Value :=
  match entries with
  | [] => VUndefined
  | (k, v) :: rest => if String.eqb k key then v else lookup_entry key rest
  end.

(** [v.key] for the property names the application reads ([id], [name],
    [title], ...): reading a property of [undefined] or [null] throws a
    TypeError ([None]); on a primitive or an array such a name is not a
    property and the read gives [undefined]. *)
Definition get (v : Value) (key : string) : option Value :=
  match v with
  | VUndefined | VNull => None
  | VObject entries => Some (lookup_entry key entries)
  | _ => Some VUndefined
  end.

Definition keys (v : Value) : list string :=
  match v with
  | VObject entries => map fst entries
  | _ => []
  end.

(** ** [Number(value)]: the coercion behind [z.coerce.number] *)

Definition code (c : ascii) : Z := Z.of_nat (nat_of_ascii c).

(** StrWhiteSpaceChar, restricted to the code units below 256. *)
Definition is_whitespace (c : ascii) : bool :=
  let n := code c in
  ((9 <=? n) && (n <=? 13) || (n =? 32) || (n =? 160))%Z.

Fixpoint trim_start (s : string) : string :=
  match s with
  | String c rest => if is_whitespace c then trim_start rest else s
  | EmptyString => EmptyString
  end.

Fixpoint rev_string (s acc : string) : string :=
  match s with
  | EmptyString => acc
  | String c rest => rev_string rest (String c acc)
  end.

Definition trim (s : string) : string :=
  rev_string (trim_start (rev_string (trim_start s) "")) "".

(** The value of a digit in a radix up to 16, if it is one. *)
Definition digit_value (radix : Z) (c : ascii) : option Z :=
  let n := code c in
  let d := (if (48 <=? n) && (n <=? 57) then n - 48
            else if (97 <=? n) && (n <=? 102) then n - 87
            else if (65 <=? n) && (n <=? 70) then n - 55
            else 16)%Z in
  if (d <? radix)%Z then Some d else None.

(** Reads the longest run of digits at the head of [s]: the number read,
    how many digits it had, and what is left. *)
Fixpoint read_digits (radix : Z) (s : string) (acc : Z) (count : nat)
  : Z * nat * string :=
  match s with
  | String c rest =>
      match digit_value radix c with
      | Some d => read_digits radix rest (acc * radix + d)%Z (S count)
      | None => (acc, count, s)
      end
  | EmptyString => (acc, count, s)
  end.

(** The Number value of the decimal literal [mantissa * 10^exponent]. *)
Definition decimal (negative : bool) (mantissa exponent : Z) : Number :=
  if (0 <=? exponent)%Z
  then nearest negative (mantissa * 10 ^ exponent) 1
  else nearest negative mantissa (10 ^ (- exponent)).

Arguments decimal : simpl never.

(** ExponentPart, optional: [e] or [E], an optional sign, digits; then the
    literal must end. *)
Definition read_exponent (s : string) : option Z :=
  match s with
  | EmptyString => Some 0%Z
  | String c rest =>
      if (code c =? 101)%Z || (code c =? 69)%Z then
        let '(negative, digits) :=
          match rest with
          | String "-" r => (true, r)
          | String "+" r => (false, r)
          | _ => (false, rest)
          end in
        match read_digits 10 digits 0 0 with
        | (_, O, _) => None
        | (e, _, EmptyString) => Some (if negative then - e else e)%Z
        | _ => None
        end
      else None
  end.

(** StrUnsignedDecimalLiteral. *)
Definition unsigned_decimal (negative : bool) (s : string) : Number :=
  if String.eqb s "Infinity" then Infinity negative
  else
    let '(int_part, int_count, after_int) := read_digits 10 s 0 0 in
    let '(mantissa, frac_count, after_frac) :=
      match after_int with
      | String "." r => read_digits 10 r int_part 0
      | _ => (int_part, O, after_int)
      end in
    match (int_count + frac_count)%nat with
    | O => NaN
    | _ =>
        match read_exponent after_frac with
        | Some e => decimal negative mantissa (e - Z.of_nat frac_count)
        | None => NaN
        end
    end.

(** NonDecimalIntegerLiteral: digits after [0x], [0o] or [0b]. *)
Definition non_decimal (radix : Z) (digits : string) : Number :=
  match read_digits radix digits 0 0 with
  | (_, O, _) => NaN
  | (n, _, EmptyString) => nearest false n 1
  | _ => NaN
  end.

(** StringToNumber: [Number(s)] for a string. *)
Definition StringToNumber (s : string) : Number :=
  match trim s with
  | EmptyString => of_Z 0
  | String "0" (String "x" digits) | String "0" (String "X" digits) =>
      non_decimal 16 digits
  | String "0" (String "o" digits) | String "0" (String "O" digits) =>
      non_decimal 8 digits
  | String "0" (String "b" digits) | String "0" (String "B" digits) =>
      non_decimal 2 digits
  | String "-" rest => unsigned_decimal true rest
  | String "+" rest => unsigned_decimal false rest
  | literal => unsigned_decimal false literal
  end.

(** [Number(v)]. An object converts through its string form
    ["[object Object]"], which is no numeric literal. An array converts
    through the join of its items with [","]: the empty array gives [""],
    two or more items give a string with a comma in it, and a single item
    gives that item's own string form ([""] for [undefined] and [null],
    ["0"] for either zero). *)
Fixpoint ToNumber (v : Value) : Number :=
  match v with
  | VUndefined => NaN
  | VNull => of_Z 0
  | VBool true => of_Z 1
  | VBool false => of_Z 0
  | VNumber n => n
  | VString s => StringToNumber s
  | VObject _ => NaN
  | VArray [] => of_Z 0
  | VArray [item] =>
      match item with
      | VUndefined | VNull => of_Z 0
      | VBool _ => NaN
      | VNumber (Finite d) => if (significand d =? 0)%Z then of_Z 0 else Finite d
      | _ => ToNumber item
      end
  | VArray _ => NaN
  end.

(** ** Zod: the schema of the add-movie form

    The source mixes the parameter names of two major versions of the
    library ([error] is read by version 4 only, [invalid_type_error] by
    version 3 only), and the versions differ in the message they attach to
    an issue and in whether [z.number] takes an infinity. The model is
    parametric in the version. *)

Inductive ZodVersion := Zod3 | Zod4.

Record Issue := {
  issue_code : string;
  issue_path : list string;
  issue_message : string
}.

Inductive SafeParse :=
| Success (data : Value)
| Failure (issues : list Issue).

(** The parameter object of a schema constructor, with the two keys the
    source passes. *)
Record Params := {
  error : option string;
  invalid_type_error : option string
}.

(** The name Zod gives to the type of a value it received. *)
Definition parsedType (v : Value) : string :=
  match v with
  | VUndefined => "undefined"
  | VNull => "null"
  | VBool _ => "boolean"
  | VNumber NaN => "nan"
  | VNumber _ => "number"
  | VString _ => "string"
  | VArray _ => "array"
  | VObject _ => "object"
  end.

Section Zod.

Variable zod : ZodVersion.

Definition Schema : Type := Value -> SafeParse.

(** The message of an [invalid_type] issue. [data] is the value the type
    check looked at (after coercion, where there is one). Version 4 uses
    the schema's [error]. Version 3 ignores that key: for [undefined] it
    uses [required_error], which the source never passes, and for anything
    else [invalid_type_error]; in the absence of the key, its default
    message. *)
Definition invalid_type (expected : string) (params : Params) (data : Value) : Issue :=
  {| issue_code := "invalid_type";
     issue_path := [];
     issue_message :=
       match zod with
       | Zod3 =>
           match data with
           | VUndefined => "Required"
           | _ =>
               default ("Expected " +:+ expected +:+ ", received " +:+ parsedType data)
                 (invalid_type_error params)
           end
       | Zod4 =>
           default
             ("Invalid input: expected " +:+ expected +:+ ", received " +:+
              match data with VNumber NaN => "NaN" | _ => parsedType data end)
             (error params)
       end |}.

(** [z.string(params)] *)
Definition z_string (params : Params) : Schema := fun input =>
  match input with
  | VString _ => Success input
  | _ => Failure [invalid_type "string" params input]
  end.

(** [.min(minimum, message)] on a string schema: the check runs once the
    input is known to be a string, on its length in code units. *)
Definition min (minimum : nat) (message : string) (inner : Schema) : Schema := fun input =>
  match inner input with
  | Success (VString s) =>
      if (minimum <=? String.length s)%nat then Success (VString s)
      else Failure [{| issue_code := "too_small"; issue_path := [];
                       issue_message := message |}]
  | result => result
  end.

(** What [z.number] takes once the input is of type number: version 3
    rejects only NaN, version 4 rejects the infinities too. *)
Definition number_accepted (n : Number) : bool :=
  match n, zod with
  | NaN, _ => false
  | Infinity _, Zod3 => true
  | Infinity _, Zod4 => false
  | Finite _, _ => true
  end.

(** [z.coerce.number(params)]: the input is replaced by [Number(input)]
    before the type check. *)
Definition z_coerce_number (params : Params) : Schema := fun input =>
  let coerced := ToNumber input in
  if number_accepted coerced then Success (VNumber coerced)
  else Failure [invalid_type "number" params (VNumber coerced)].

Definition at_key (key : string) (issue : Issue) : Issue :=
  {| issue_code := issue_code issue;
     issue_path := key :: issue_path issue;
     issue_message := issue_message issue |}.

(** [z.object(shape)] on an object: every key of the shape is parsed,
    a missing property reading as [undefined]; the issues of all keys are
    collected under their key, and on success the output has the keys of
    the shape only. The form values handed to the schema are always an
    object, so the rejection of other inputs is left out. *)
Fixpoint parse_shape (shape : list (string * Schema)) (input : list (string * Value))
  : list (string * Value) * list Issue :=
  match shape with
  | [] => ([], [])
  | (key, field) :: rest =>
      let '(output, issues) := parse_shape rest input in
      match field (lookup_entry key input) with
      | Success data => ((key, data) :: output, issues)
      | Failure field_issues => (output, map (at_key key) field_issues ++ issues)
      end
  end.

Definition z_object (shape : list (string * Schema)) (input : list (string * Value))
  : SafeParse :=
  match parse_shape shape input with
  | (output, []) => Success (VObject output)
  | (_, issues) => Failure issues
  end.

(** [schema] of [add-movie.jsx]. *)
Definition shape : list (string * Schema) :=
  [ ("name",
     min 2 "Name must be at least 2 characters"
       (z_string {| error := Some "Movie name is required";
                    invalid_type_error := None |}));
    ("description",
     min 10 "Description must be at least 10 characters"
       (z_string {| error := Some "Description is required";
                    invalid_type_error := None |}));
    ("year",
     z_coerce_number {| invalid_type_error := Some "Year must be a number";
                        error := Some "Movie year is required" |});
    ("duration",
     z_coerce_number {| invalid_type_error := Some "Duration must be a number";
                        error := Some "Movie duration is required" |});
    ("genre_id",
     z_coerce_number {| invalid_type_error := Some "Genre must be a number";
                        error := Some "Movie genre is required" |}) ].

Definition schema : list (string * Value) -> SafeParse := z_object shape.

End Zod.

(** ** The resolver ([@hookform/resolvers/zod]) *)

Record FieldError := {
  type : string;
  message : string
}.

(** The issues become the error object, keyed by the joined path; the first
    issue of a path is the one kept. Every path of this schema is a single
    field name, so the nested error object is this flat one. *)
Definition parseErrorSchema (zodErrors : list Issue) : gmap string FieldError :=
  foldl
    (fun errors issue =>
       let _path := String.concat "." (issue_path issue) in
       match errors !! _path with
       | Some _ => errors
       | None =>
           <[_path := {| message := issue_message issue;
                         type := issue_code issue |}]> errors
       end)
    ∅ zodErrors.

Record ResolverResult := {
  values : Value;
  errors : gmap string FieldError
}.

Definition zodResolver (schema : list (string * Value) -> SafeParse)
    (formValues : list (string * Value)) : ResolverResult :=
  match schema formValues with
  | Success data => {| values := data; errors := ∅ |}
  | Failure issues => {| values := VObject []; errors := parseErrorSchema issues |}
  end.

(** ** Effects and react-hook-form's [handleSubmit] *)

(** What the code of the application does to the world outside its own
    state: the [console.log] of the submit callback and the [fetch] of the
    effect. What React and the router themselves write to the console when
    a render throws is not among them. *)
Inductive Effect :=
| ConsoleLog (data : Value)
| FetchRequest (method url : string).

(** The form object of [useForm]: the values of the registered fields and
    the form state. *)
Record Form := {
  _formValues : list (string * Value);
  formErrors : gmap string FieldError;
  isSubmitted : bool;
  isSubmitting : bool;
  isSubmitSuccessful : bool;
  submitCount : nat
}.

(** [useForm({ resolver })] with no default values, once the fields named
    [names] have registered: each of them reads [undefined]. *)
Definition useForm (names : list string) : Form :=
  {| _formValues := map (fun name => (name, VUndefined)) names;
     formErrors := ∅;
     isSubmitted := false;
     isSubmitting := false;
     isSubmitSuccessful := false;
     submitCount := 0 |}.

(** [form.handleSubmit(onValid)], run on a submit event: the resolver
    validates the form values, its errors replace the form's errors, and
    [onValid] is called with the resolver's values when there is no error.
    No [onInvalid] is passed. [isSubmitting] is true only while the handler
    runs. *)
Definition handleSubmit
    (resolver : list (string * Value) -> ResolverResult)
    (onValid : Value -> list Effect)
    (form : Form) : Form * list Effect :=
  let result := resolver (_formValues form) in
  let valid := bool_decide (errors result = ∅) in
  ({| _formValues := _formValues form;
      formErrors := errors result;
      isSubmitted := true;
      isSubmitting := false;
      isSubmitSuccessful := valid;
      submitCount := S (submitCount form) |},
   if valid then onValid (values result) else []).

(** A registered field takes a value, by whatever way a control reports
    it; a name that is not registered has no control and is left out. *)
Fixpoint setValue (name : string) (value : Value) (entries : list (string * Value))
  : list (string * Value) :=
  match entries with
  | [] => []
  | (k, v) :: rest =>
      if String.eqb k name then (k, value) :: rest
      else (k, v) :: setValue name value rest
  end.

(** ** JSX *)

Inductive Attr :=
| AStr (s : string)          (* name="text" *)
| AVal (v : Value)           (* name={value} *)
| ARef (source : string)     (* name={an object or callback}, by its source text *)
| ATrue.                     (* name *)

(** A React element as the component functions return it. A spread
    [{...x}] is the prop ["...x"].

    [RenderProp] is an element with a [render] prop, as [FormField] has:
    [render] is what the arrow function returns once the component calls
    it, with its parameter left as a name, and [None] if that call throws.
    The component function that builds the element does not make the call,
    so it returns whatever [render] is. *)
Inductive Element :=
| Text (s : string)
| Expr (v : Value)
| El (tag : string) (props : list (string * Attr)) (children : list Element)
| RenderProp (tag : string) (props : list (string * Attr)) (render : option Element).

Definition className (classes : string) : string * Attr := ("className", AStr classes).

Fixpoint prop (name : string) (props : list (string * Attr)) : option Attr :=
  match props with
  | [] => None
  | (k, a) :: rest => if String.eqb k name then Some a else prop name rest
  end.

(** Modelled from the spec: [FormField] of [src/components/ui/form.jsx],
    which is not among the sources, is the field of "the third-party
    form/validation integration", react-hook-form's [Controller]: it calls
    its [render] prop, the "function that receives field props and returns
    JSX" of the comment in [add-movie.jsx], whenever it renders, and
    renders what that returns.

    [rendered] is what React renders from a tree: the element of a render
    prop gets what the call returns as its child, and an error thrown by
    the call ([None]) leaves the render of the whole tree without a
    result. *)
Fixpoint rendered (e : Element) : option Element :=
  match e with
  | El tag props children => El tag props <$> mapM rendered children
  | RenderProp tag props (Some body) =>
      (fun body' => El tag props [body']) <$> rendered body
  | RenderProp _ _ None => None
  | _ => Some e
  end.

(** ** [Layout] ([src/components/layout.jsx]) *)

(** [pathname] is what [useLocation()] returns. *)
Definition Layout (pathname : string) (children : list Element) : Element :=
  El "div" []
    [ El "nav" [className "bg-card border-b border-border"]
        [ El "div" [className "max-w-7xl mx-auto px-4 py-4"]
            [ El "div" [className "flex items-center justify-between"]
                [ El "Link" [("to", AStr "/"); className "text-2xl font-bold text-primary"]
                    [Text "Movie App"];
                  El "div" [className "flex gap-4"]
                    [ El "Link"
                        [ ("to", AStr "/");
                          className
                            ("px-4 py-2 rounded-lg transition-colors " +:+
                             (if String.eqb pathname "/"
                              then "bg-primary text-primary-foreground"
                              else "text-foreground hover:bg-secondary hover:text-white")) ]
                        [Text "Movies"];
                      El "Link"
                        [ ("to", AStr "/add-movie");
                          className
                            ("px-4 py-2 rounded-lg transition-colors " +:+
                             (if String.eqb pathname "/add-movie"
                              then "bg-primary text-primary-foreground"
                              else "text-foreground hover:bg-secondary hover:text-white")) ]
                        [Text "Add Movie"] ] ] ] ];
      El "div" [className "p-3"] children ].

(** ** [Home] ([src/pages/home.jsx]) *)

Definition movie : Value :=
  VObject
    [ ("id", int 1);
      ("title", str "Inception");
      ("year", int 2010);
      ("genre", str "Sci-Fi");
      ("rating", VNumber (decimal false 88 (-1)));   (* 8.8 *)
      ("description",
       str "A thief who steals corporate secrets through the use of dream-sharing technology is given the inverse task of planting an idea into the mind of a C.E.O.") ].

(** [movie.key]: [movie] is an object, the read cannot throw. *)
Definition movie_ (key : string) : Value := default VUndefined (get movie key).

(** The initial value of the [movies] state. *)
Definition initial_movies : list Value := [movie; movie; movie; movie].

(** [Home], for the current value of its [movies] state. The [Delete]
    button has no [onClick]. *)
Definition Home (movies : list Value) : Element :=
  El "div" []
    [ El "h1" [className "text-4xl font-bold mb-8"] [Text "My Movies"];
      El "div" [className "grid grid-cols-1 md:grid-cols-2 lg:grid-cols-4 gap-6"]
        (imap
           (fun index _ =>
              El "Card"
                [ ("key", AVal (movie_ "id"));
                  className "flex flex-col gap-4 p-6 hover:border-primary transition-colors" ]
                [ El "div" []
                    [ El "h2" [className "text-xl font-bold text-foreground mb-2"]
                        [Expr (movie_ "title")];
                      El "div" [className "flex gap-2 mb-2"]
                        [ El "span" [className "text-sm px-3 py-1 bg-secondary rounded-full text-white"]
                            [Expr (movie_ "year")];
                          El "span" [className "text-sm px-3 py-1 bg-secondary rounded-full text-white"]
                            [Expr (movie_ "genre")] ] ];
                  El "div" [className "flex items-center gap-2"]
                    [ El "span" [className "text-2xl font-bold text-gray-700"]
                        [Expr (movie_ "rating")];
                      El "span" [className "text-muted-foreground"] [Text "/10"] ];
                  El "p" [className "text-sm text-muted-foreground line-clamp-3"]
                    [Expr (movie_ "description")];
                  El "Button"
                    [ ("variant", AStr "destructive");
                      className "mt-auto hover:cursor-pointer" ]
                    [Text "Delete"] ])
           movies) ].

(** ** [AddMovie] ([src/pages/add-movie.jsx]) *)

(** The module-level constant [genres]. Inside [AddMovie] the name is
    rebound by [useState], as it is below by the parameter [genres]. *)
Definition genres : Value :=
  VArray
    [ VObject [("id", int 1); ("name", str "Action")];
      VObject [("id", int 2); ("name", str "Comedy")];
      VObject [("id", int 3); ("name", str "Drama")];
      VObject [("id", int 4); ("name", str "Horror")];
      VObject [("id", int 5); ("name", str "Romance")] ].

(** The endpoint of the request sent by the effect of [AddMovie]. *)
Definition genre_url : string := "http://localhost:8000/genre".

(** [array.map(f)] where [f] may throw; on anything but an array there is no
    callable [map] and the call throws. *)
Definition array_map {A} (f : Value -> option A) (array : Value) : option (list A) :=
  match array with
  | VArray items => mapM f items
  | _ => None
  end.

(** [AddMovie], for the current values of its [genres] state and of its
    form. The component function always returns: [genres.map] is in the
    [render] prop of the [genre_id] field, which [FormField] calls when
    React renders it. The parameter of each [render] prop is named [field]
    in the source and is used only through [{...field}] and [field.name],
    [field.value] and [field.onChange], which are kept by their source
    text. *)
Definition AddMovie (genres : Value) (form : Form) : Element :=
  El "div" [className "w-full flex items-center justify-center"]
    [ El "div" [className "min-w-xl max-w-2xl w-full py-16 px-8"]
      [ El "h1" [className "text-4xl font-bold mb-8"] [Text "Add New Movie"];
        El "Card" [className "p-8"]
        [ El "Form" [("...form", ARef "form")]
          [ El "form" [className "space-y-6"; ("noValidate", ATrue); ("onSubmit", ARef "onSubmit")]
            [ RenderProp "FormField" [("control", ARef "form.control"); ("name", AStr "name")]
                (Some
                   (El "FormItem" []
                      [ El "FormLabel" [] [Text "Name"];
                        El "FormControl" []
                          [El "Input" [("placeholder", AStr "Movie name"); ("...field", ARef "field")] []];
                        El "FormMessage" [] [] ]));
              El "div" [className "grid grid-cols-1 md:grid-cols-2 gap-2"]
              [ RenderProp "FormField" [("control", ARef "form.control"); ("name", AStr "year")]
                  (Some
                     (El "FormItem" []
                        [ El "FormLabel" [] [Text "Year"];
                          El "FormControl" []
                            [El "Input" [("placeholder", AStr "Year"); ("type", AStr "number");
                                         ("...field", ARef "field")] []];
                          El "FormMessage" [] [] ]));
                RenderProp "FormField" [("control", ARef "form.control"); ("name", AStr "genre_id")]
                  (items ← array_map
                     (fun genre =>
                        id ← get genre "id";
                        name ← get genre "name";
                        Some (El "SelectItem" [("key", AVal id); ("value", AVal id)] [Expr name]))
                     genres;
                   Some
                     (El "FormItem" []
                        [ El "FormLabel" [] [Text "Genre"];
                          El "FormControl" []
                            [ El "Select" [("name", ARef "field.name"); ("value", ARef "field.value");
                                           ("onValueChange", ARef "field.onChange")]
                              [ El "SelectTrigger" [className "w-full"]
                                  [El "SelectValue" [("placeholder", AStr "Select genre")] []];
                                El "SelectContent" [] items ] ];
                          El "FormMessage" [] [] ])) ];
              RenderProp "FormField" [("control", ARef "form.control"); ("name", AStr "description")]
                (Some
                   (El "FormItem" []
                      [ El "FormLabel" [] [Text "Description"];
                        El "FormControl" []
                          [El "Textarea"
                             [("placeholder", AStr "Add a brief description or review of the movie...");
                              ("rows", AVal (int 5)); ("...field", ARef "field")] []];
                        El "FormMessage" [] [] ]));
              El "div" [className "flex gap-4"]
                [ El "Button" [("type", AStr "submit");
                               ("disabled", AVal (VBool (isSubmitting form)))]
                    [Text (if isSubmitting form then "Adding..." else "Add Movie")] ] ] ] ] ] ].

(** The [name] of every [FormField] of the form above: the fields that
    register with the form. *)
Definition registered_fields : list string :=
  ["name"; "year"; "genre_id"; "description"].

(** ** Reading element trees *)

Definition attr_string (name : string) (props : list (string * Attr)) : string :=
  match prop name props with
  | Some (AStr s) => s
  | _ => ""
  end.

Definition text_of (children : list Element) : string :=
  match children with
  | [Text s] => s
  | _ => ""
  end.

Record LinkEl := {
  to : string;
  link_class : string;
  label : string
}.

(** The [Link] elements of a tree, in document order. *)
Fixpoint links (e : Element) : list LinkEl :=
  match e with
  | El tag props children =>
      (if String.eqb tag "Link"
       then [{| to := attr_string "to" props;
                link_class := attr_string "className" props;
                label := text_of children |}]
       else []) ++ flat_map links children
  | _ => []
  end.

(** The elements with a given tag, in document order. *)
Fixpoint elementsByTag (wanted : string) (e : Element) : list Element :=
  match e with
  | El tag props children =>
      (if String.eqb tag wanted then [e] else []) ++ flat_map (elementsByTag wanted) children
  | _ => []
  end.

(** The [name]s of the [FormField]s of a tree. *)
Definition form_fields (e : Element) : list string :=
  map (fun field => match field with
                    | El _ props _ => attr_string "name" props
                    | _ => ""
                    end)
      (elementsByTag "FormField" e).

(** Modelled from the spec: [FormField] and [FormMessage] of
    [src/components/ui/form.jsx], which is not among the sources. "Form
    validation errors are surfaced inline by the third-party
    form/validation integration": a [FormMessage] shows the message of the
    error of the [FormField] it is placed in, and nothing when that field
    has no error. [form_messages] lists what the [FormMessage]s of a tree
    show, each with the name of its field. *)
Fixpoint form_messages (formErrors : gmap string FieldError) (field : option string)
    (e : Element) : list (string * string) :=
  match e with
  | El tag props children =>
      let field :=
        if String.eqb tag "FormField" then Some (attr_string "name" props) else field in
      (if String.eqb tag "FormMessage"
       then match field with
            | Some name =>
                match formErrors !! name with
                | Some error => [(name, message error)]
                | None => []
                end
            | None => []
            end
       else []) ++ flat_map (form_messages formErrors field) children
  | _ => []
  end.

(** Splitting a [className] at its spaces. *)
Fixpoint classes_from (current s : string) : list string :=
  match s with
  | EmptyString => [current]
  | String " " rest => current :: classes_from "" rest
  | String c rest => classes_from (current +:+ String c "") rest
  end.

Definition classList (classes : string) : list string :=
  filter (fun c => c ≠ "") (classes_from "" classes).

(** The classes of the source's "Active styles". *)
Definition active_classes : list string := ["bg-primary"; "text-primary-foreground"].

Definition is_active (link : LinkEl) : bool :=
  forallb (fun c => bool_decide (c ∈ classList (link_class link))) active_classes.

(** ** The router ([src/main.jsx]) *)

Record RouteObject := {
  path : string;
  element : Element
}.

(** The argument of [createBrowserRouter]. *)
Definition router : list RouteObject :=
  [ {| path := "/"; element := El "Layout" [] [El "Home" [] []] |};
    {| path := "/add-movie"; element := El "Layout" [] [El "AddMovie" [] []] |} ].

(** *** [decodeURIComponent]

    The router matches the decoded pathname, while [useLocation] gives the
    pathname as it is written. A decoded string is given by its code units,
    which may lie above 255. *)

(** The code units of a string. *)
Definition units (s : string) : list Z := map code (list_ascii_of_string s).

(** The escapes of a string resolved: each code unit or octet, with
    whether it was written as [%XX]. A [%] that is not followed by two
    hexadecimal digits is a URIError ([None]). *)
Fixpoint unescape (s : string) : option (list (bool * Z)) :=
  match s with
  | EmptyString => Some []
  | String "%" (String h (String l rest)) =>
      high ← digit_value 16 h;
      low ← digit_value 16 l;
      cons (true, 16 * high + low)%Z <$> unescape rest
  | String "%" _ => None
  | String c rest => cons (false, code c) <$> unescape rest
  end.

(** The low six bits of a continuation octet [10xxxxxx]. *)
Definition continuation (octet : bool * Z) : option Z :=
  match octet with
  | (true, b) => if ((128 <=? b) && (b <? 192))%Z then Some (b - 128)%Z else None
  | (false, _) => None
  end.

(** UTF16EncodeCodePoint. *)
Definition utf16 (v : Z) : list Z :=
  if (v <? 65536)%Z then [v]
  else [(55296 + (v - 65536) / 1024)%Z; (56320 + (v - 65536) mod 1024)%Z].

(** An escaped octet below 128 is its character. One with the high bit set
    starts the UTF-8 form of a code point, whose other octets must be
    escaped too, and the form must be the valid one of that code point:
    none written longer than needed, no surrogate, none above 0x10FFFF. *)
Fixpoint utf8 (octets : list (bool * Z)) : option (list Z) :=
  match octets with
  | [] => Some []
  | (false, c) :: rest => cons c <$> utf8 rest
  | (true, b) :: rest =>
      if (b <? 128)%Z then cons b <$> utf8 rest
      else if (b <? 192)%Z then None
      else if (b <? 224)%Z then
        match rest with
        | o1 :: rest' =>
            c1 ← continuation o1;
            let v := ((b - 192) * 64 + c1)%Z in
            if (128 <=? v)%Z then app (utf16 v) <$> utf8 rest' else None
        | _ => None
        end
      else if (b <? 240)%Z then
        match rest with
        | o1 :: o2 :: rest' =>
            c1 ← continuation o1;
            c2 ← continuation o2;
            let v := ((b - 224) * 4096 + c1 * 64 + c2)%Z in
            if ((2048 <=? v) && negb ((55296 <=? v) && (v <=? 57343)))%Z
            then app (utf16 v) <$> utf8 rest' else None
        | _ => None
        end
      else if (b <? 248)%Z then
        match rest with
        | o1 :: o2 :: o3 :: rest' =>
            c1 ← continuation o1;
            c2 ← continuation o2;
            c3 ← continuation o3;
            let v := ((b - 240) * 262144 + c1 * 4096 + c2 * 64 + c3)%Z in
            if ((65536 <=? v) && (v <=? 1114111))%Z
            then app (utf16 v) <$> utf8 rest' else None
        | _ => None
        end
      else None
  end.

Definition decodeURIComponent (s : string) : option (list Z) :=
  unescape s ≫= utf8.

(** [value.split("/")] *)
Fixpoint split_slash (current s : string) : list string :=
  match s with
  | EmptyString => [current]
  | String "/" rest => current :: split_slash "" rest
  | String c rest => split_slash (current +:+ String c "") rest
  end.

(** [segments.join("/")] *)
Fixpoint join_slash (segments : list (list Z)) : list Z :=
  match segments with
  | [] => []
  | [segment] => segment
  | segment :: rest => segment ++ 47%Z :: join_slash rest
  end.

(** [decodePath] of the router: each segment is decoded, a slash that
    comes out of an escape is written [%2F], and a pathname with a segment
    that cannot be decoded is matched as it is. *)
Definition decodePath (value : string) : list Z :=
  match
    mapM (fun v =>
            flat_map (fun c => if (c =? 47)%Z then [37; 50; 70]%Z else [c])
              <$> decodeURIComponent v)
         (split_slash "" value)
  with
  | Some segments => join_slash segments
  | None => units value
  end.

(** *** Matching

    How the router matches a route without parameters against a decoded
    pathname: one slash, the path without the slashes at its ends, then any
    number of slashes, compared without regard to the case of the letters
    A to Z. *)
Definition lower (c : Z) : Z :=
  if ((65 <=? c) && (c <=? 90))%Z then (c + 32)%Z else c.

Definition all_slashes (pathname : list Z) : bool := forallb (Z.eqb 47) pathname.

Fixpoint match_from (pattern : string) (pathname : list Z) : bool :=
  match pattern, pathname with
  | EmptyString, rest => all_slashes rest
  | String a p, b :: q => (lower (code a) =? lower b)%Z && match_from p q
  | String _ _, [] => false
  end.

Fixpoint strip_leading (s : string) : string :=
  match s with
  | String "/" rest => strip_leading rest
  | _ => s
  end.

Fixpoint strip_trailing (s : string) : string :=
  match s with
  | EmptyString => EmptyString
  | String c rest =>
      if String.eqb (strip_leading s) "" then EmptyString
      else String c (strip_trailing rest)
  end.

Definition matchPath (pattern : string) (pathname : list Z) : bool :=
  match_from (String "/" (strip_leading (strip_trailing pattern))) pathname.

(** [matchRoutes], on routes none of which has children: the route whose
    path matches the decoded pathname, an empty pathname standing for
    ["/"]. No pathname matches both routes of this application, so their
    order does not matter. *)
Definition matchRoutes (routes : list RouteObject) (pathname : string) : option RouteObject :=
  let decoded := decodePath (if String.eqb pathname "" then "/" else pathname) in
  find (fun route => matchPath (path route) decoded) routes.

(** ** The application as a transition system *)

(** The page components, which hold state. *)
Inductive Component := HomeC | AddMovieC.

Fixpoint components (e : Element) : list Component :=
  match e with
  | El tag _ children =>
      (if String.eqb tag "Home" then [HomeC]
       else if String.eqb tag "AddMovie" then [AddMovieC]
       else []) ++ flat_map components children
  | _ => []
  end.

(** The state of the mounted page component: the [movies] state of [Home],
    or the [genres] state and the form of an instance of [AddMovie]. The
    instances of [AddMovie] are numbered in the order they mount. *)
Inductive PageState :=
| HomeMounted (movies : list Value)
| AddMovieMounted (instance : nat) (genres : Value) (form : Form).

(** No page is mounted where no route matches, and after the render of the
    page threw: the router's error boundary then shows its error element
    in place of the route's element, which unmounts the layout and the
    page, and it lets go of the error at the next change of location. *)
Record App := {
  pathname : string;          (* location.pathname *)
  page : option PageState;    (* the mounted page *)
  mounts : nat;               (* instances of AddMovie mounted so far *)
  pending : list nat          (* genre requests in flight, by instance *)
}.

Inductive Event :=
| Navigate (to : string)                          (* a link, or a move in the history *)
| ClickDelete (index : nat)                       (* a Delete button on the home page *)
| Change (name : string) (value : Value)          (* a field takes a value *)
| Submit                                          (* the form's submit event *)
| FetchResolved (instance : nat) (data : Value)   (* res.json() resolved with data *)
| FetchRejected (instance : nat).                 (* fetch or res.json() rejected *)

(** Whether React can render a page in a state, and the page after React
    rendered it: one whose render throws is unmounted. [Home] reads nothing
    that could throw. *)
Definition renders (state : PageState) : bool :=
  match state with
  | HomeMounted _ => true
  | AddMovieMounted _ genres form =>
      match rendered (AddMovie genres form) with
      | Some _ => true
      | None => false
      end
  end.

Definition rerender (state : PageState) : option PageState :=
  if renders state then Some state else None.

Section App.

Variable zod : ZodVersion.

(** [onSubmit] of [AddMovie]. *)
Definition onSubmit : Form -> Form * list Effect :=
  handleSubmit (zodResolver (schema zod)) (fun data => [ConsoleLog data]).

(** A navigation. The page component is kept when the new location renders
    the same one; otherwise the old one unmounts and the new one mounts
    with its initial state, and so it does when no page was mounted, be it
    that the last render threw. Mounting [AddMovie] runs its effect, which
    sends the genre request; nothing aborts a request in flight. This is
    the production build: the second run of effects that [StrictMode] adds
    in development is not modelled. *)
Definition navigate (to : string) (app : App) : App * list Effect :=
  let mounted component :=
    match component, page app with
    | HomeC, Some (HomeMounted _) | AddMovieC, Some (AddMovieMounted _ _ _) => true
    | _, _ => false
    end in
  match matchRoutes router to ≫= (fun route => head (components (element route))) with
  | None =>
      ({| pathname := to; page := None; mounts := mounts app; pending := pending app |}, [])
  | Some component =>
      if mounted component
      then ({| pathname := to; page := page app;
               mounts := mounts app; pending := pending app |}, [])
      else
        match component with
        | HomeC =>
            ({| pathname := to; page := Some (HomeMounted initial_movies);
                mounts := mounts app; pending := pending app |}, [])
        | AddMovieC =>
            ({| pathname := to;
                page := Some (AddMovieMounted (mounts app) (VArray [])
                                (useForm registered_fields));
                mounts := S (mounts app);
                pending := mounts app :: pending app |},
             [FetchRequest "GET" genre_url])
        end
  end.

Definition settle (instance : nat) (app : App) (page' : option PageState) : App :=
  {| pathname := pathname app; page := page';
     mounts := mounts app;
     pending := filter (fun i => i ≠ instance) (pending app) |}.

(** A step. The response of the mounted instance goes to [setGenres] as it
    is, and React renders the page again with it; the response of an
    instance that is no longer mounted is dropped. The other state updates
    are those of the form, which does not bear on whether the page
    renders. *)
Definition step (app : App) (event : Event) : App * list Effect :=
  match event with
  | Navigate to => navigate to app
  | ClickDelete _ => (app, [])
  | Change name value =>
      match page app with
      | Some (AddMovieMounted i genres form) =>
          ({| pathname := pathname app;
              page := Some (AddMovieMounted i genres
                {| _formValues := setValue name value (_formValues form);
                   formErrors := formErrors form;
                   isSubmitted := isSubmitted form;
                   isSubmitting := isSubmitting form;
                   isSubmitSuccessful := isSubmitSuccessful form;
                   submitCount := submitCount form |});
              mounts := mounts app; pending := pending app |}, [])
      | _ => (app, [])
      end
  | Submit =>
      match page app with
      | Some (AddMovieMounted i genres form) =>
          let '(form', effects) := onSubmit form in
          ({| pathname := pathname app;
              page := Some (AddMovieMounted i genres form');
              mounts := mounts app; pending := pending app |}, effects)
      | _ => (app, [])
      end
  | FetchResolved instance data =>
      if bool_decide (instance ∈ pending app) then
        match page app with
        | Some (AddMovieMounted i genres form) =>
            if bool_decide (i = instance)
            then (settle instance app (rerender (AddMovieMounted i data form)), [])
            else (settle instance app (page app), [])
        | _ => (settle instance app (page app), [])
        end
      else (app, [])
  | FetchRejected instance => (settle instance app (page app), [])
  end.

(** The application run on a sequence of events, with all effects. *)
Fixpoint run (app : App) (events : list Event) : App * list Effect :=
  match events with
  | [] => (app, [])
  | event :: rest =>
      let '(app', effects) := step app event in
      let '(app'', effects') := run app' rest in
      (app'', effects ++ effects')
  end.

(** The application before it is opened, and a session: the application
    opened at a location, then run on events. *)
Definition unopened : App :=
  {| pathname := ""; page := None; mounts := 0; pending := [] |}.

Definition session (location : string) (events : list Event) : App * list Effect :=
  run unopened (Navigate location :: events).

(** What the router renders: the element of the matched route, with the
    components expanded on the current state. [None] when no route
    matches, when the page of the route is not mounted, or when the render
    throws. *)
Fixpoint render (app : App) (e : Element) : option Element :=
  match e with
  | El tag props children =>
      if String.eqb tag "Layout" then
        Layout (pathname app) <$> mapM (render app) children
      else if String.eqb tag "Home" then
        match page app with
        | Some (HomeMounted movies) => Some (Home movies)
        | _ => None
        end
      else if String.eqb tag "AddMovie" then
        match page app with
        | Some (AddMovieMounted _ genres form) => rendered (AddMovie genres form)
        | _ => None
        end
      else El tag props <$> mapM (render app) children
  | _ => Some e
  end.

Definition view (app : App) : option Element :=
  matchRoutes router (pathname app) ≫= (fun route => render app (element route)).

(** The state of the pages, read off the application. *)
Definition movie_list (app : App) : option (list Value) :=
  match page app with
  | Some (HomeMounted movies) => Some movies
  | _ => None
  end.

Definition genre_list (app : App) : option Value :=
  match page app with
  | Some (AddMovieMounted _ genres _) => Some genres
  | _ => None
  end.

Definition form_of (app : App) : option Form :=
  match page app with
  | Some (AddMovieMounted _ _ form) => Some form
  | _ => None
  end.

End App.

(** The requests and the console output among the effects of a run. *)
Definition requests (effects : list Effect) : list (string * string) :=
  omap (fun effect => match effect with
                      | FetchRequest method url => Some (method, url)
                      | _ => None
                      end) effects.

Definition logged (effects : list Effect) : list Value :=
  omap (fun effect => match effect with
                      | ConsoleLog data => Some data
                      | _ => None
                      end) effects.

(** ** Notions the properties are stated with *)

Definition succeeds (result : SafeParse) : bool :=
  match result with
  | Success _ => true
  | Failure _ => false
  end.

(** A failure carries at least one issue. *)
Definition reports (result : SafeParse) : Prop :=
  match result with
  | Failure [] => False
  | _ => True
  end.

(** "A string of length at least [n]". *)
Definition string_of_min_length (n : nat) (v : Value) : Prop :=
  ∃ s, v = VString s ∧ (n ≤ String.length s)%nat.

(** "Coerces to a number": [Number(v)] is a
    number that [z.number] takes, which is any number but NaN for version 3
    and any finite number for version 4. *)
Definition coerces_to_number (zod : ZodVersion) (v : Value) : Prop :=
  match zod with
  | Zod3 => ToNumber v ≠ NaN
  | Zod4 => ∃ q, ToNumber v = Finite q
  end.

(** The form values the schema takes. *)
Definition valid_input (zod : ZodVersion) (input : list (string * Value)) : Prop :=
  string_of_min_length 2 (lookup_entry "name" input) ∧
  string_of_min_length 10 (lookup_entry "description" input) ∧
  coerces_to_number zod (lookup_entry "year" input) ∧
  coerces_to_number zod (lookup_entry "duration" input) ∧
  coerces_to_number zod (lookup_entry "genre_id" input).

(** The outcomes of a navigation. *)
Inductive Navigated (to : string) (app : App) : App * list Effect → Prop :=
| NoMatch :
    Navigated to app
      ({| pathname := to; page := None;
          mounts := mounts app; pending := pending app |}, [])
| SamePage :
    Navigated to app
      ({| pathname := to; page := page app;
          mounts := mounts app; pending := pending app |}, [])
| MountHome :
    movie_list app = None →
    Navigated to app
      ({| pathname := to; page := Some (HomeMounted initial_movies);
          mounts := mounts app; pending := pending app |}, [])
| MountAddMovie :
    genre_list app = None →
    Navigated to app
      ({| pathname := to;
          page := Some (AddMovieMounted (mounts app) (VArray [])
                          (useForm registered_fields));
          mounts := S (mounts app);
          pending := mounts app :: pending app |},
       [FetchRequest "GET" genre_url]).

(** How a step changes the mounted page. *)
Inductive PageStep (zod : ZodVersion) (app : App) (event : Event)
  : option PageState → Prop :=
| PageKept :
    PageStep zod app event (page app)
| PageUnmounted to :
    event = Navigate to →
    PageStep zod app event None
| HomeMounts to :
    event = Navigate to → movie_list app = None →
    PageStep zod app event (Some (HomeMounted initial_movies))
| AddMovieMounts to :
    event = Navigate to → genre_list app = None →
    PageStep zod app event
      (Some (AddMovieMounted (mounts app) (VArray []) (useForm registered_fields)))
| FieldChanged i genres form name value :
    event = Change name value →
    page app = Some (AddMovieMounted i genres form) →
    PageStep zod app event
      (Some (AddMovieMounted i genres
         {| _formValues := setValue name value (_formValues form);
            formErrors := formErrors form;
            isSubmitted := isSubmitted form;
            isSubmitting := isSubmitting form;
            isSubmitSuccessful := isSubmitSuccessful form;
            submitCount := submitCount form |}))
| FormSubmitted i genres form :
    event = Submit →
    page app = Some (AddMovieMounted i genres form) →
    PageStep zod app event (Some (AddMovieMounted i genres (onSubmit zod form).1))
| GenresSet i genres form data :
    event = FetchResolved i data →
    page app = Some (AddMovieMounted i genres form) →
    i ∈ pending app →
    PageStep zod app event (rerender (AddMovieMounted i data form)).

(** The links of the navigation bar: those of the first [nav] of a tree. *)
Definition navigation (e : Element) : list LinkEl :=
  match elementsByTag "nav" e with
  | nav :: _ => links nav
  | [] => []
  end.

Definition key_of (e : Element) : option Attr :=
  match e with
  | El _ props _ => prop "key" props
  | _ => None
  end.

(** The values a tree shows through its [{expression}] children, in
    document order. *)
Fixpoint expressions (e : Element) : list Value :=
  match e with
  | Expr v => [v]
  | El _ _ children => flat_map expressions children
  | _ => []
  end.

(** The [render] props of a tree, each with the [name] of its element. *)
Fixpoint render_props (e : Element) : list (string * option Element) :=
  match e with
  | El _ _ children => flat_map render_props children
  | RenderProp _ props render => [(attr_string "name" props, render)]
  | _ => []
  end.

(** The card of the movie Inception, written out: its key is 1, it shows
    the title, the year, the genre, the rating and the description of that
    movie, and its button has no handler. *)
Definition movie_card : Element :=
  El "Card"
    [ ("key", AVal (int 1));
      className "flex flex-col gap-4 p-6 hover:border-primary transition-colors" ]
    [ El "div" []
        [ El "h2" [className "text-xl font-bold text-foreground mb-2"]
            [Expr (str "Inception")];
          El "div" [className "flex gap-2 mb-2"]
            [ El "span" [className "text-sm px-3 py-1 bg-secondary rounded-full text-white"]
                [Expr (int 2010)];
              El "span" [className "text-sm px-3 py-1 bg-secondary rounded-full text-white"]
                [Expr (str "Sci-Fi")] ] ];
      El "div" [className "flex items-center gap-2"]
        [ El "span" [className "text-2xl font-bold text-gray-700"]
            [Expr (VNumber (StringToNumber "8.8"))];
          El "span" [className "text-muted-foreground"] [Text "/10"] ];
      El "p" [className "text-sm text-muted-foreground line-clamp-3"]
        [Expr (str "A thief who steals corporate secrets through the use of dream-sharing technology is given the inverse task of planting an idea into the mind of a C.E.O.")];
      El "Button"
        [ ("variant", AStr "destructive");
          className "mt-auto hover:cursor-pointer" ]
        [Text "Delete"] ].

(** The element [AddMovie] renders for an entry of [genres]. *)
Definition is_select_item (genre : Value) (item : Element) : Prop :=
  ∃ id name,
    get genre "id" = Some id ∧ get genre "name" = Some name ∧
    item = El "SelectItem" [("key", AVal id); ("value", AVal id)] [Expr name].

(** What the [FormMessage] of a field shows. *)
Definition shown (formErrors : gmap string FieldError) (name : string)
  : list (string * string) :=
  match formErrors !! name with
  | Some error => [(name, message error)]
  | None => []
  end.

(** The target and the label of each link: the navigation structure. *)
Definition targets (e : Element) : list (string * string) :=
  map (fun link => (to link, label link)) (links e).

(** The form holds a value for its registered fields and for no other. *)
Definition fields_registered (app : App) : Prop :=
  ∀ form, form_of app = Some form → map fst (_formValues form) = registered_fields.

(** The entry of the error object made from an issue. *)
Definition to_error (issue : Issue) : FieldError :=
  {| type := issue_code issue; message := issue_message issue |}.

(** The error a field gets from the result of its schema: that of the
    first issue, if it failed. *)
Definition field_error (result : SafeParse) : option FieldError :=
  match result with
  | Failure (issue :: _) => Some (to_error issue)
  | _ => None
  end.

(** The issues of a schema that is not an object carry no path of their
    own. *)
Definition pathless (field : Schema) : Prop :=
  ∀ v, match field v with
       | Success _ => True
       | Failure issues => Forall (fun issue => issue_path issue = []) issues
       end.

(** A string of white space only, the empty string included. *)
Fixpoint blank (s : string) : bool :=
  match s with
  | EmptyString => true
  | String c rest => is_whitespace c && blank rest
  end.

(** A value an entry of [genres] may be for [AddMovie] to read its [id]
    and [name]. *)
Definition readable (genre : Value) : Prop :=
  genre ≠ VUndefined ∧ genre ≠ VNull.

(** A value of the [genres] state that the page can read: an array of such
    entries. *)
Definition readable_genres (state : Value) : Prop :=
  ∃ entries, state = VArray entries ∧ Forall readable entries.

(** A genre as the entries of the module-level list are: an object with a
    number for its [id] and a string for its [name]; and a list of such
    genres. What the components of [src/components/ui], which are not among
    the sources, make of any other [id] or [name] is not known here. *)
Definition genre_record (genre : Value) : Prop :=
  ∃ entries id name,
    genre = VObject entries ∧
    lookup_entry "id" entries = VNumber id ∧
    lookup_entry "name" entries = VString name.

Definition genre_records (state : Value) : Prop :=
  ∃ entries, state = VArray entries ∧ Forall genre_record entries.

(** The page component the router mounts at a location. *)
Definition page_at (location : string) : option Component :=
  matchRoutes router location ≫= (fun route => head (components (element route))).

(** The application with a fresh instance of the add-movie page mounted at
    a location, its request sent. *)
Definition remounted (location : string) (app : App) : App :=
  {| pathname := location;
     page := Some (AddMovieMounted (mounts app) (VArray []) (useForm registered_fields));
     mounts := S (mounts app);
     pending := mounts app :: pending app |}.

(** The instance of the mounted add-movie page. *)
Definition instance_of (app : App) : option nat :=
  match page app with
  | Some (AddMovieMounted i _ _) => Some i
  | _ => None
  end.

(** The schema of a field of the form, by its key. *)
Definition schema_field (zod : ZodVersion) (key : string) : Schema :=
  match find (fun entry => String.eqb entry.1 key) (shape zod) with
  | Some entry => entry.2
  | None => fun _ => Failure []
  end.

(** The request of instance [i] has settled and the [genres] state of that
    instance, while it is mounted, is [state]. *)
Definition settled_at (i : nat) (state : Value) (app : App) : Prop :=
  (i < mounts app)%nat ∧
  (i ∉ pending app) ∧
  (∀ s f, page app = Some (AddMovieMounted i s f) → s = state).

(** The mounted page is the page of the route that matches the location
    and is one that renders; the home page is mounted wherever its route
    matches. *)
Definition located (app : App) : Prop :=
  match page app with
  | Some (HomeMounted movies) =>
      page_at (pathname app) = Some HomeC ∧ movies = initial_movies
  | Some (AddMovieMounted i genres form) =>
      page_at (pathname app) = Some AddMovieC ∧
      renders (AddMovieMounted i genres form) = true
  | None => page_at (pathname app) ≠ Some HomeC
  end.

(** A response that the add-movie page can read, and one that is a list of
    genres. *)
Definition readable_response (event : Event) : Prop :=
  ∀ i data, event = FetchResolved i data → readable_genres data.

Definition genre_response (event : Event) : Prop :=
  ∀ i data, event = FetchResolved i data → genre_records data.

(** A form whose number fields were left blank. *)
Definition blank_numbers : Form :=
  {| _formValues :=
       [ ("name", str "Up");
         ("description", str "An old man flies his house south.");
         ("year", str "");
         ("duration", str "  ");
         ("genre_id", str "") ];
     formErrors := ∅;
     isSubmitted := false;
     isSubmitting := false;
     isSubmitSuccessful := false;
     submitCount := 0 |}.

(** * Properties *)

(** ** The schema and the resolver *)

Lemma parseErrorSchema_step_nonempty (issues : list Issue) (acc : gmap string FieldError) :
  acc ≠ ∅ →
  foldl
    (fun errors issue =>
       let _path := String.concat "." (issue_path issue) in
       match errors !! _path with
       | Some _ => errors
       | None =>
           <[_path := {| message := issue_message issue;
                         type := issue_code issue |}]> errors
       end) acc issues ≠ ∅.
Proof.
  revert acc. induction issues as [|issue issues IH]; intros acc Hacc; simpl.
  - exact Hacc.
  - apply IH. destruct (acc !! _) eqn:E.
    + exact Hacc.
    + apply insert_non_empty.
Qed.

Lemma parseErrorSchema_nonempty (issues : list Issue) :
  issues ≠ [] → parseErrorSchema issues ≠ ∅.
Proof.
  destruct issues as [|issue issues]; [congruence|]. intros _.
  unfold parseErrorSchema. simpl. rewrite lookup_empty.
  apply parseErrorSchema_step_nonempty, insert_non_empty.
Qed.

Lemma parse_shape_issues (shape : list (string * Schema))
    (input : list (string * Value)) :
  Forall (fun '(key, field) => reports (field (lookup_entry key input))) shape →
  (parse_shape shape input).2 = [] ↔
  Forall (fun '(key, field) => succeeds (field (lookup_entry key input)) = true) shape.
Proof.
  induction shape as [|[key field] rest IH]; intros Hreports; simpl.
  - split; [constructor | reflexivity].
  - inversion Hreports as [|? ? Hfield Hrest]; subst.
    specialize (IH Hrest).
    destruct (parse_shape rest input) as [output issues]; simpl in *.
    destruct (field (lookup_entry key input)) as [data|field_issues] eqn:E; simpl.
    + rewrite IH. split.
      * intros H. constructor; [by rewrite E | exact H].
      * intros H. inversion H; subst. assumption.
    + split.
      * intros H. apply app_eq_nil in H as [H _].
        destruct field_issues; [contradiction | discriminate].
      * intros H. inversion H as [|? ? Hhead _]; subst.
        rewrite E in Hhead. discriminate.
Qed.

Lemma z_object_succeeds (shape : list (string * Schema)) (input : list (string * Value)) :
  succeeds (z_object shape input) = true ↔ (parse_shape shape input).2 = [].
Proof.
  unfold z_object. destruct (parse_shape shape input) as [output [|issue issues]]; simpl.
  - split; reflexivity.
  - split; discriminate.
Qed.

Lemma z_object_reports (shape : list (string * Schema)) (input : list (string * Value)) :
  reports (z_object shape input).
Proof.
  unfold z_object. destruct (parse_shape shape input) as [output [|issue issues]]; exact I.
Qed.

Section Fields.

Variable zod : ZodVersion.

Lemma string_field_reports (n : nat) (msg : string) (params : Params) (v : Value) :
  reports (min n msg (z_string zod params) v).
Proof.
  unfold min, z_string. destruct v; simpl; try exact I.
  destruct (n <=? String.length s)%nat; exact I.
Qed.

Lemma string_field_succeeds (n : nat) (msg : string) (params : Params) (v : Value) :
  succeeds (min n msg (z_string zod params) v) = true ↔ string_of_min_length n v.
Proof.
  unfold min, z_string, string_of_min_length.
  destruct v; simpl; try (split; [discriminate | intros (s' & [=] & _)]).
  destruct (Nat.leb_spec n (String.length s)) as [Hle|Hlt]; simpl.
  - split; [intros _; eauto | reflexivity].
  - split; [discriminate | intros (s' & [= <-] & Hle); lia].
Qed.

Lemma number_field_reports (params : Params) (v : Value) :
  reports (z_coerce_number zod params v).
Proof.
  unfold z_coerce_number. destruct (number_accepted zod (ToNumber v)); exact I.
Qed.

Lemma number_accepted_spec (v : Value) :
  number_accepted zod (ToNumber v) = true ↔ coerces_to_number zod v.
Proof.
  unfold number_accepted, coerces_to_number.
  destruct zod, (ToNumber v) as [|negative|q]; simpl; split;
    try discriminate; try congruence; eauto;
    try (intros [q' [=]]).
Qed.

Lemma number_field_succeeds (params : Params) (v : Value) :
  succeeds (z_coerce_number zod params v) = true ↔ coerces_to_number zod v.
Proof.
  rewrite <- number_accepted_spec. unfold z_coerce_number.
  destruct (number_accepted zod (ToNumber v)); simpl; split; congruence.
Qed.

Lemma schema_succeeds (input : list (string * Value)) :
  succeeds (schema zod input) = true ↔ valid_input zod input.
Proof.
  unfold schema. rewrite z_object_succeeds, parse_shape_issues.
  - unfold shape, valid_input.
    rewrite !Forall_cons, Forall_nil.
    rewrite !string_field_succeeds, !number_field_succeeds. tauto.
  - unfold shape. repeat constructor;
      auto using string_field_reports, number_field_reports.
Qed.

Lemma string_field_data (n : nat) (msg : string) (params : Params) (v data : Value) :
  min n msg (z_string zod params) v = Success data → data = v.
Proof.
  unfold min, z_string. destruct v; simpl; try discriminate.
  destruct (n <=? String.length s)%nat; [by intros [= <-] | discriminate].
Qed.

Lemma number_field_data (params : Params) (v data : Value) :
  z_coerce_number zod params v = Success data → data = VNumber (ToNumber v).
Proof.
  unfold z_coerce_number.
  destruct (number_accepted zod (ToNumber v)); [by intros [= <-] | discriminate].
Qed.

(** The data of a successful parse, field by field. *)
Lemma schema_parsed (input : list (string * Value)) (data : Value) :
  schema zod input = Success data →
  data = VObject
           [ ("name", lookup_entry "name" input);
             ("description", lookup_entry "description" input);
             ("year", VNumber (ToNumber (lookup_entry "year" input)));
             ("duration", VNumber (ToNumber (lookup_entry "duration" input)));
             ("genre_id", VNumber (ToNumber (lookup_entry "genre_id" input))) ].
Proof.
  unfold schema, z_object, shape. simpl.
  repeat match goal with
         | |- context [min ?n ?msg (z_string zod ?params) ?v] =>
             let E := fresh "E" in
             let R := fresh "R" in
             pose proof (string_field_reports n msg params v) as R;
             destruct (min n msg (z_string zod params) v) as [?|[|? ?]] eqn:E;
             [apply string_field_data in E | by destruct R | clear R]
         | |- context [z_coerce_number zod ?params ?v] =>
             let E := fresh "E" in
             let R := fresh "R" in
             pose proof (number_field_reports params v) as R;
             destruct (z_coerce_number zod params v) as [?|[|? ?]] eqn:E;
             [apply number_field_data in E | by destruct R | clear R]
         end; simpl; try discriminate.
  intros [= <-]. by subst.
Qed.

End Fields.

(** ** The submit handler *)

Section Submit.

Variable zod : ZodVersion.

(** [handleSubmit] calls its callback with the parsed data when the schema
    takes the form values, and does not call it otherwise. *)
Lemma handleSubmit_spec (onValid : Value → list Effect) (form : Form) :
  (handleSubmit (zodResolver (schema zod)) onValid form).2 =
    match schema zod (_formValues form) with
    | Success data => onValid data
    | Failure _ => []
    end.
Proof.
  unfold handleSubmit. simpl.
  pose proof (z_object_reports (shape zod) (_formValues form)) as Hr.
  fold (schema zod) in Hr. unfold zodResolver.
  destruct (schema zod (_formValues form)) as [data|issues]; simpl in *.
  - by rewrite bool_decide_eq_true_2.
  - rewrite bool_decide_eq_false_2; [done|].
    apply parseErrorSchema_nonempty. by destruct issues.
Qed.

Lemma onSubmit_effects (form : Form) :
  (onSubmit zod form).2 =
    match schema zod (_formValues form) with
    | Success data => [ConsoleLog data]
    | Failure _ => []
    end.
Proof. apply handleSubmit_spec. Qed.

Lemma step_Submit (app : App) :
  step zod app Submit =
    match page app with
    | Some (AddMovieMounted i genres form) =>
        ({| pathname := pathname app;
            page := Some (AddMovieMounted i genres (onSubmit zod form).1);
            mounts := mounts app; pending := pending app |},
         (onSubmit zod form).2)
    | _ => (app, [])
    end.
Proof.
  unfold step. by destruct (page app) as [[movies|i genres form]|].
Qed.

(** C1. A submission of the add-movie form sends no request. What it does
    to the outside is decided by the schema alone: when the schema takes
    the form values it logs the data the schema made of them, once, and
    otherwise it does nothing; so form values that pass the five rules are
    logged, as the object of the five fields. It leaves the movie list, the
    genre list, the route, the pages mounted and the requests in flight as
    they were. *)
Theorem submit_only_logs (app : App) :
  (∀ method url, FetchRequest method url ∉ (step zod app Submit).2) ∧
  (step zod app Submit).2 =
    match form_of app with
    | Some form =>
        match schema zod (_formValues form) with
        | Success data => [ConsoleLog data]
        | Failure _ => []
        end
    | None => []
    end ∧
  (∀ form,
     form_of app = Some form →
     valid_input zod (_formValues form) →
     (step zod app Submit).2 =
       [ConsoleLog
          (VObject
             [ ("name", lookup_entry "name" (_formValues form));
               ("description", lookup_entry "description" (_formValues form));
               ("year", VNumber (ToNumber (lookup_entry "year" (_formValues form))));
               ("duration", VNumber (ToNumber (lookup_entry "duration" (_formValues form))));
               ("genre_id", VNumber (ToNumber (lookup_entry "genre_id" (_formValues form)))) ])]) ∧
  ((step zod app Submit).2 = [] ∨
   ∃ form data,
     form_of app = Some form ∧
     schema zod (_formValues form) = Success data ∧
     (step zod app Submit).2 = [ConsoleLog data]) ∧
  movie_list (step zod app Submit).1 = movie_list app ∧
  genre_list (step zod app Submit).1 = genre_list app ∧
  pathname (step zod app Submit).1 = pathname app ∧
  mounts (step zod app Submit).1 = mounts app ∧
  pending (step zod app Submit).1 = pending app.
Proof.
  rewrite step_Submit. unfold movie_list, genre_list, form_of.
  destruct (page app) as [[movies|i genres form]|] eqn:Hpage; cbn [fst snd];
    rewrite ?Hpage.
  1,3: split; [intros ? ? H; by apply elem_of_nil in H|];
       split; [reflexivity|]; split; [by intros ? [=]|];
       split; [by left | done].
  rewrite onSubmit_effects.
  destruct (schema zod (_formValues form)) as [data|issues] eqn:Hschema.
  - split; [intros method url H; apply list_elem_of_singleton in H; discriminate|].
    split; [reflexivity|]. split; [|split; [right; eauto | done]].
    intros ? [= <-] _. by rewrite (schema_parsed zod _ _ Hschema) at 1.
  - split; [intros ? ? H; by apply elem_of_nil in H|].
    split; [reflexivity|]. split; [|split; [by left | done]].
    intros ? [= <-] Hvalid. apply schema_succeeds in Hvalid.
    by rewrite Hschema in Hvalid.
Qed.

(** C2. The callback passed to [handleSubmit], which logs, runs exactly on
    the inputs the schema takes: [name] a string of at least 2 code units,
    [description] a string of at least 10, and [year], [duration] and
    [genre_id] each coercing to a number; then it is given the parsed data.
    On any other input it does not run. The same holds of any callback put
    in its place. *)
Theorem callback_iff_valid (form : Form) :
  ((∃ data, (onSubmit zod form).2 = [ConsoleLog data]) ↔
   string_of_min_length 2 (lookup_entry "name" (_formValues form)) ∧
   string_of_min_length 10 (lookup_entry "description" (_formValues form)) ∧
   coerces_to_number zod (lookup_entry "year" (_formValues form)) ∧
   coerces_to_number zod (lookup_entry "duration" (_formValues form)) ∧
   coerces_to_number zod (lookup_entry "genre_id" (_formValues form))) ∧
  ((∃ data, (onSubmit zod form).2 = [ConsoleLog data]) ∨ (onSubmit zod form).2 = []) ∧
  (∀ data, (onSubmit zod form).2 = [ConsoleLog data] →
           schema zod (_formValues form) = Success data) ∧
  (∀ onValid : Value → list Effect,
     (handleSubmit (zodResolver (schema zod)) onValid form).2 =
     match schema zod (_formValues form) with
     | Success data => onValid data
     | Failure _ => []
     end).
Proof.
  split; [|split; [|split]]; [| | |intros onValid; apply handleSubmit_spec];
    rewrite onSubmit_effects.
  - pose proof (schema_succeeds zod (_formValues form)) as Hvalid.
    unfold valid_input in Hvalid. rewrite <- Hvalid.
    destruct (schema zod (_formValues form)) as [data|issues]; simpl.
    + split; eauto.
    + split; [intros [? [=]] | discriminate].
  - destruct (schema zod (_formValues form)); eauto.
  - destruct (schema zod (_formValues form)); intros ? [=]. by subst.
Qed.

End Submit.

(** ** Rendering *)

(** C10. Whatever the pathname, the navigation bar has the links Movie App,
    Movies and Add Movie; the Movies link carries the active classes
    exactly when the pathname is ["/"], the Add Movie link exactly when it
    is ["/add-movie"], the first link never, so at most one link is
    active. *)
Theorem active_link (pathname : string) (children : list Element) :
  ∃ brand movies add,
    navigation (Layout pathname children) = [brand; movies; add] ∧
    (to brand, label brand) = ("/", "Movie App") ∧
    (to movies, label movies) = ("/", "Movies") ∧
    (to add, label add) = ("/add-movie", "Add Movie") ∧
    is_active brand = false ∧
    (is_active movies = true ↔ pathname = "/") ∧
    (is_active add = true ↔ pathname = "/add-movie") ∧
    ¬ (is_active movies = true ∧ is_active add = true).
Proof.
  unfold navigation, Layout. cbn [elementsByTag String.eqb Ascii.eqb Bool.eqb app].
  destruct (String.eqb_spec pathname "/") as [Hhome|Hhome];
    destruct (String.eqb_spec pathname "/add-movie") as [Hadd|Hadd];
    try (exfalso; congruence);
    (do 3 eexists; split; [cbn; reflexivity|]);
    vm_compute; intuition (congruence || discriminate).
Qed.

Lemma imap_constant {A B} (b : B) (l : list A) :
  imap (fun _ _ => b) l = replicate (length l) b.
Proof.
  induction l as [|a l IH]; [reflexivity|].
  simpl. f_equal. exact IH.
Qed.

Lemma flat_map_replicate {A B} (f : A → list B) (a : A) (b : B) (n : nat) :
  f a = [b] → flat_map f (replicate n a) = replicate n b.
Proof.
  intros Hf. induction n as [|n IH]; [reflexivity|].
  simpl. by rewrite Hf, IH.
Qed.

Lemma flat_map_replicate_nil {A B} (f : A → list B) (a : A) (n : nat) :
  f a = [] → flat_map f (replicate n a) = [].
Proof.
  intros Hf. induction n as [|n IH]; [reflexivity|].
  simpl. by rewrite Hf, IH.
Qed.

(** [Home] is the page frame around one [movie_card] per entry. *)
Lemma Home_cards (movies : list Value) :
  Home movies =
  El "div" []
    [ El "h1" [className "text-4xl font-bold mb-8"] [Text "My Movies"];
      El "div" [className "grid grid-cols-1 md:grid-cols-2 lg:grid-cols-4 gap-6"]
        (replicate (length movies) movie_card) ].
Proof.
  unfold Home. by rewrite imap_constant.
Qed.

(** C8. The home page renders one card per entry of [movies] without
    reading the entry: every card is the card of the constant [movie],
    showing its title, year, genre, rating and description, with the key
    [movie.id], which is 1. So the page is the same frame around as many
    copies of that one card as the list is long, and two lists of the same
    length render the same page. *)
Theorem home_ignores_movies (movies movies' : list Value) :
  length movies = length movies' →
  Home movies = Home movies' ∧
  Home movies =
    El "div" []
      [ El "h1" [className "text-4xl font-bold mb-8"] [Text "My Movies"];
        El "div" [className "grid grid-cols-1 md:grid-cols-2 lg:grid-cols-4 gap-6"]
          (replicate (length movies) movie_card) ] ∧
  elementsByTag "Card" (Home movies) = replicate (length movies) movie_card ∧
  expressions movie_card =
    [ movie_ "title"; movie_ "year"; movie_ "genre"; movie_ "rating";
      movie_ "description" ] ∧
  key_of movie_card = Some (AVal (movie_ "id")) ∧
  key_of movie_card = Some (AVal (int 1)) ∧
  get movie "id" = Some (int 1) ∧
  elementsByTag "Card" (Home [movie]) = [movie_card].
Proof.
  intros Hlength. split; [|split; [|split; [|by repeat split]]].
  - by rewrite !Home_cards, Hlength.
  - apply Home_cards.
  - rewrite Home_cards.
    cbn [elementsByTag String.eqb Ascii.eqb Bool.eqb app flat_map].
    rewrite app_nil_r. by apply flat_map_replicate.
Qed.

Lemma select_items_by_tag (entries : list Value) (items : list Element) :
  Forall2 is_select_item entries items →
  flat_map (elementsByTag "SelectItem") items = items.
Proof.
  induction 1 as [|genre item ? ? (id & name & _ & _ & ->) _ IH]; [reflexivity|].
  simpl. by rewrite IH.
Qed.

Lemma select_items_links (entries : list Value) (items : list Element) :
  Forall2 is_select_item entries items →
  flat_map links items = [].
Proof.
  induction 1 as [|genre item ? ? (id & name & _ & _ & ->) _ IH]; [reflexivity|].
  simpl. by rewrite IH.
Qed.

Lemma select_items_other_tag (entries : list Value) (items : list Element) (tag : string) :
  Forall2 is_select_item entries items →
  String.eqb "SelectItem" tag = false →
  flat_map (elementsByTag tag) items = [].
Proof.
  intros Hitems Htag.
  induction Hitems as [|genre item ? ? (id & name & _ & _ & ->) _ IH]; [reflexivity|].
  cbn [flat_map elementsByTag]. by rewrite Htag, IH.
Qed.

Lemma select_items_messages (entries : list Value) (items : list Element)
    (formErrors : gmap string FieldError) (field : option string) :
  Forall2 is_select_item entries items →
  flat_map (form_messages formErrors field) items = [].
Proof.
  induction 1 as [|genre item ? ? (id & name & _ & _ & ->) _ IH]; [reflexivity|].
  simpl. by rewrite IH.
Qed.

(** Runs [rendered] on a tree that is written out. *)
Ltac compute_rendered :=
  cbn [rendered mapM fmap option_fmap option_map mbind option_bind mret option_ret].

Lemma select_items_rendered (entries : list Value) (items : list Element) :
  Forall2 is_select_item entries items → mapM rendered items = Some items.
Proof.
  induction 1 as [|genre item ? ? (id & name & _ & _ & ->) _ IH]; [reflexivity|].
  change (mapM rendered (?x :: ?l)) with (y ← rendered x; k ← mapM rendered l; mret (y :: k)).
  rewrite IH. reflexivity.
Qed.

(** The select items [AddMovie] makes of the entries of [genres]. *)
Lemma select_items (entries : list Value) :
  match
    mapM (fun genre =>
            id ← get genre "id";
            name ← get genre "name";
            Some (El "SelectItem" [("key", AVal id); ("value", AVal id)] [Expr name]))
         entries
  with
  | Some items => Forall2 is_select_item entries items ∧ Forall readable entries
  | None => ¬ Forall readable entries
  end.
Proof.
  destruct (mapM _ entries) as [items|] eqn:Hitems.
  - apply mapM_Some in Hitems. split.
    + eapply Forall2_impl; [exact Hitems|]. intros genre item Hitem. simpl in Hitem.
      destruct (get genre "id") as [id|] eqn:Hid; [|discriminate].
      destruct (get genre "name") as [name|] eqn:Hname; [|discriminate].
      simpl in Hitem. injection Hitem as <-. by exists id, name.
    + induction Hitems as [|genre item ? ? Hitem _ IH]; constructor; [|exact IH].
      unfold readable. by destruct genre.
  - apply mapM_None in Hitems. apply Exists_exists in Hitems as (genre & Hin & Hnone).
    intros Hreadable. rewrite Forall_forall in Hreadable.
    destruct (Hreadable genre Hin) as [Hu Hn]. by destruct genre.
Qed.

(** What React renders of [AddMovie] when [genres] is an array whose
    entries are not [undefined] or [null]: its select items are those of
    the entries, it has no link, and its messages are those of its four
    fields. *)
Lemma AddMovie_rendered (genres : Value) (form : Form) (e : Element) :
  rendered (AddMovie genres form) = Some e →
  ∃ entries,
    genres = VArray entries ∧
    Forall readable entries ∧
    Forall2 is_select_item entries (elementsByTag "SelectItem" e) ∧
    links e = [] ∧
    form_fields e = registered_fields ∧
    ∀ formErrors,
      form_messages formErrors None e = flat_map (shown formErrors) registered_fields.
Proof.
  unfold AddMovie, array_map. destruct genres as [| | | | |entries|]; try discriminate.
  pose proof (select_items entries) as Hselect.
  destruct (mapM _ entries) as [items|]; [|discriminate].
  destruct Hselect as [Hselect Hreadable].
  compute_rendered. rewrite (select_items_rendered entries items Hselect). compute_rendered.
  intros [= <-]. exists entries. split; [reflexivity|]. split; [exact Hreadable|].
  split; [|split; [|split]].
  - simpl. rewrite !app_nil_r.
    by rewrite (select_items_by_tag entries items Hselect).
  - simpl. rewrite !app_nil_r.
    by rewrite (select_items_links entries items Hselect).
  - unfold form_fields. simpl.
    by rewrite (select_items_other_tag entries items "FormField" Hselect).
  - intros formErrors. simpl.
    rewrite (select_items_messages entries items _ _ Hselect).
    unfold shown, attr_string. simpl.
    by rewrite ?app_nil_r, <- ?app_assoc.
Qed.

(** React can render [AddMovie] on an array of readable entries. *)
Lemma AddMovie_renders (entries : list Value) (form : Form) :
  Forall readable entries → is_Some (rendered (AddMovie (VArray entries) form)).
Proof.
  intros Hreadable. unfold AddMovie, array_map.
  pose proof (select_items entries) as Hselect.
  destruct (mapM _ entries) as [items|]; [|contradiction].
  destruct Hselect as [Hselect _].
  compute_rendered. rewrite (select_items_rendered entries items Hselect).
  compute_rendered. by eexists.
Qed.

(** The render props of [AddMovie] are those of its four fields, and only
    that of the genre field can throw. *)
Lemma AddMovie_render_props (state : Value) (form : Form) :
  map fst (render_props (AddMovie state form)) = registered_fields ∧
  Forall (fun field => field.1 = "genre_id" ∨ is_Some field.2)
    (render_props (AddMovie state form)).
Proof.
  unfold AddMovie. cbn [render_props flat_map app attr_string prop String.eqb Ascii.eqb Bool.eqb].
  split; [reflexivity|].
  repeat (apply Forall_cons; split); try apply Forall_nil; simpl; eauto.
Qed.

(** All render props of [AddMovie] return exactly on a [genres] state the
    page can read. *)
Lemma AddMovie_render_props_return (state : Value) (form : Form) :
  Forall (fun field => is_Some field.2) (render_props (AddMovie state form)) ↔
  readable_genres state.
Proof.
  unfold AddMovie.
  cbn [render_props flat_map app attr_string prop String.eqb Ascii.eqb Bool.eqb].
  rewrite !Forall_cons. cbn [snd]. unfold array_map, readable_genres.
  destruct state as [| | | | |entries|]; cbn [mbind option_bind];
    try (split; [by intros (_ & _ & [? [=]] & _) | by intros (? & [=] & _)]).
  pose proof (select_items entries) as Hselect.
  destruct (mapM _ entries) as [items|]; cbn [mbind option_bind].
  - split; [intros _; exists entries; tauto|].
    intros _. repeat split; try by eexists. constructor.
  - split; [by intros (_ & _ & [? [=]] & _)|].
    intros (? & [= <-] & Hreadable). contradiction.
Qed.

Lemma genre_records_readable (state : Value) :
  genre_records state → readable_genres state.
Proof.
  intros (entries & -> & Hrecords). exists entries. split; [reflexivity|].
  eapply Forall_impl; [exact Hrecords|].
  intros genre (? & ? & ? & -> & _). by split.
Qed.

(** React can render [AddMovie] exactly on a [genres] state it can read. *)
Lemma AddMovie_readable (state : Value) (form : Form) :
  is_Some (rendered (AddMovie state form)) ↔ readable_genres state.
Proof.
  split.
  - intros [e He]. destruct (AddMovie_rendered state form e He) as (entries & -> & ? & _).
    by exists entries.
  - intros (entries & -> & Hreadable). by apply AddMovie_renders.
Qed.

(** Whether the page renders does not depend on the form, nor on which
    instance it is. *)
Lemma renders_readable (i : nat) (state : Value) (form : Form) :
  renders (AddMovieMounted i state form) = true ↔ readable_genres state.
Proof.
  rewrite <- (AddMovie_readable state form). unfold renders.
  by destruct (rendered (AddMovie state form)); split; try done; intros [? [=]].
Qed.

(** From here on the page is used through the lemmas above. *)
Opaque AddMovie.

Lemma Home_rendered (movies : list Value) :
  links (Home movies) = [] ∧ elementsByTag "SelectItem" (Home movies) = [].
Proof.
  rewrite Home_cards. simpl. rewrite !app_nil_r.
  split; by apply flat_map_replicate_nil.
Qed.

(** ** Transitions *)

Lemma navigate_cases (to : string) (app : App) : Navigated to app (navigate to app).
Proof.
  unfold navigate.
  destruct (matchRoutes router to ≫= _) as [[|]|]; [| |constructor];
    destruct (page app) as [[movies|i genres form]|] eqn:Hpage;
    first [ rewrite <- Hpage; by constructor
          | constructor; unfold movie_list, genre_list; by rewrite Hpage ].
Qed.

Section Transitions.

Variable zod : ZodVersion.

(** A property of the state that every step keeps holds throughout a run. *)
Lemma run_invariant (P : App → Prop) (allowed : Event → Prop) :
  (∀ app event, allowed event → P app → P (step zod app event).1) →
  ∀ events app, Forall allowed events → P app → P (run zod app events).1.
Proof.
  intros Hstep events. induction events as [|event events IH]; intros app Hall HP.
  - exact HP.
  - inversion Hall as [|? ? Hevent Hevents]; subst. simpl.
    specialize (Hstep app event Hevent HP).
    destruct (step zod app event) as [app' effects].
    specialize (IH app' Hevents Hstep).
    by destruct (run zod app' events).
Qed.

(** What a step may emit. *)
Lemma step_effects (app : App) (event : Event) :
  (step zod app event).2 = [] ∨
  (∃ to, event = Navigate to ∧ genre_list app = None ∧
         genre_list (step zod app event).1 = Some (VArray []) ∧
         mounts (step zod app event).1 = S (mounts app) ∧
         (step zod app event).2 = [FetchRequest "GET" genre_url]) ∨
  (∃ data, event = Submit ∧ (step zod app event).2 = [ConsoleLog data]).
Proof.
  destruct event as [to| |name value| |i data|i].
  - simpl. destruct (navigate_cases to app); eauto 10.
  - by left.
  - simpl. destruct (page app) as [[|]|]; by left.
  - rewrite step_Submit.
    destruct (page app) as [[movies|i genres form]|]; try by left.
    cbn [snd]. rewrite onSubmit_effects.
    destruct (schema zod (_formValues form)); eauto.
  - simpl. repeat case_match; by left.
  - by left.
Qed.

(** Only a navigation mounts a page. *)
Lemma step_mounts (app : App) (event : Event) :
  mounts (step zod app event).1 = mounts app ∨
  (∃ to, event = Navigate to ∧
         (step zod app event).2 = [FetchRequest "GET" genre_url] ∧
         mounts (step zod app event).1 = S (mounts app)).
Proof.
  destruct event as [to| |name value| |i data|i]; simpl.
  - destruct (navigate_cases to app); eauto.
  - by left.
  - destruct (page app) as [[|]|]; by left.
  - destruct (page app) as [[|? ? form]|]; by left.
  - repeat case_match; by left.
  - by left.
Qed.

Lemma step_page (app : App) (event : Event) :
  PageStep zod app event (page (step zod app event).1).
Proof.
  destruct event as [to| |name value| |i data|i].
  - simpl. destruct (navigate_cases to app); simpl; econstructor; eauto.
  - apply PageKept.
  - simpl. destruct (page app) as [[movies|j genres form]|] eqn:Hpage; simpl;
      rewrite ?Hpage; try (rewrite <- Hpage; apply PageKept).
    by eapply FieldChanged.
  - rewrite step_Submit.
    destruct (page app) as [[movies|j genres form]|] eqn:Hpage; simpl;
      rewrite ?Hpage; try (rewrite <- Hpage; apply PageKept).
    by eapply FormSubmitted.
  - simpl. case_bool_decide as Hpending; [|apply PageKept].
    destruct (page app) as [[movies|j genres form]|] eqn:Hpage; simpl;
      rewrite ?Hpage; try (rewrite <- Hpage; apply PageKept).
    case_bool_decide as Hinstance; simpl; [|rewrite <- Hpage; apply PageKept].
    subst j. by eapply GenresSet.
  - unfold step, settle. simpl. apply PageKept.
Qed.

(** The movie list after a step is the initial one or the one before. *)
Lemma step_movie_list (app : App) (event : Event) (movies : list Value) :
  movie_list (step zod app event).1 = Some movies →
  movies = initial_movies ∨ movie_list app = Some movies.
Proof.
  unfold movie_list at 1.
  destruct (step_page app event); intros Hlist; simplify_eq; auto.
  unfold rerender in Hlist. by destruct (renders _).
Qed.

(** The genre list after a step that is not the arrival of a response is
    the empty array or the one before. *)
Lemma step_genre_list (app : App) (event : Event) (data : Value) :
  (∀ i response, event ≠ FetchResolved i response) →
  genre_list (step zod app event).1 = Some data →
  data = VArray [] ∨ genre_list app = Some data.
Proof.
  intros Hevent. unfold genre_list at 1.
  destruct (step_page app event) as [| | | |? ? ? ? ? ? Hpage|? ? ? ? Hpage|];
    intros Hlist; simplify_eq; auto;
    try (right; unfold genre_list; by rewrite Hpage);
    by edestruct Hevent.
Qed.

(** Only a navigation mounts the add-movie page. *)
Lemma step_keeps_unmounted (app : App) (event : Event) :
  (∀ to, event ≠ Navigate to) →
  genre_list app = None →
  genre_list (step zod app event).1 = None.
Proof.
  intros Hevent Hbefore. unfold genre_list in *.
  destruct (step_page app event) as [| | |to ->| | |];
    try done; simplify_eq; try (by destruct (Hevent to));
    match goal with Hpage : page app = _ |- _ => by rewrite Hpage in Hbefore end.
Qed.

End Transitions.

(** ** Sessions *)

Section Sessions.

Variable zod : ZodVersion.

(** The movie list of a mounted home page is the initial one. *)
Lemma session_movie_list (location : string) (events : list Event) (movies : list Value) :
  movie_list (session zod location events).1 = Some movies →
  movies = initial_movies.
Proof.
  revert movies. unfold session.
  apply (run_invariant zod
           (fun app => ∀ movies, movie_list app = Some movies → movies = initial_movies)
           (fun _ => True)).
  - intros app event _ IH movies Hmovies.
    destruct (step_movie_list zod app event movies Hmovies); auto.
  - by apply Forall_true.
  - discriminate.
Qed.

(** C4. The [movies] state of the home page starts as the one hard-coded
    movie four times over, and whatever happens in a session, the list of a
    mounted home page is that initial list of four. *)
Theorem movies_stay_initial (location : string) (events : list Event) :
  movie_list (session zod "/" []).1 = Some [movie; movie; movie; movie] ∧
  (∀ movies,
     movie_list (session zod location events).1 = Some movies →
     movies = [movie; movie; movie; movie] ∧ length movies = 4).
Proof.
  split; [reflexivity|].
  intros movies Hmovies.
  by rewrite (session_movie_list location events movies Hmovies).
Qed.

(** The requests of a run are as many genre requests as pages mounted. *)
Lemma run_requests (events : list Event) (app : App) :
  ∃ n, mounts (run zod app events).1 = mounts app + n ∧
       requests (run zod app events).2 = replicate n ("GET", genre_url).
Proof.
  revert app. induction events as [|event events IH]; intros app; simpl.
  - exists 0. split; [lia | reflexivity].
  - pose proof (step_effects zod app event) as Heffects.
    pose proof (step_mounts zod app event) as Hmounts.
    destruct (step zod app event) as [app' effects]; simpl in *.
    destruct (IH app') as (n & Hn & Hrequests).
    destruct (run zod app' events) as [app'' effects']; simpl in *.
    unfold requests in *. rewrite omap_app, Hrequests.
    destruct Heffects as [->|[(to & -> & _ & _ & Hmount & ->)|(data & -> & ->)]]; simpl.
    + destruct Hmounts as [Hsame|(? & _ & [=] & _)].
      exists n. split; [lia | reflexivity].
    + exists (S n). split; [lia | reflexivity].
    + destruct Hmounts as [Hsame|(? & [=] & _)].
      exists n. split; [lia | reflexivity].
Qed.

(** C3. The only request of the application is the GET of
    [http://localhost:8000/genre]: a step that sends a request sends this
    one alone and is a navigation that mounts the add-movie page, and every
    mount of that page sends it once. The data of the response goes to the
    [genres] state as it is, and the page is rendered again with it: the
    page either has exactly that data as its state or is unmounted, a list
    of genres is always taken, and on data that the page cannot read the
    render throws and the page is unmounted. A rejection changes no page
    state and sends nothing more (no handler, no retry), and no step drops
    a request in flight other than its own settlement (no
    cancellation). *)
Theorem genre_request (app : App) (event : Event) :
  (∀ method url,
     FetchRequest method url ∈ (step zod app event).2 →
     (step zod app event).2 = [FetchRequest "GET" "http://localhost:8000/genre"] ∧
     (∃ to, event = Navigate to) ∧
     genre_list app = None ∧
     genre_list (step zod app event).1 = Some (VArray [])) ∧
  (genre_list app = None →
   is_Some (genre_list (step zod app event).1) →
   (step zod app event).2 = [FetchRequest "GET" "http://localhost:8000/genre"]) ∧
  (∀ i genres form data,
     event = FetchResolved i data →
     page app = Some (AddMovieMounted i genres form) →
     i ∈ pending app →
     (page (step zod app event).1 = Some (AddMovieMounted i data form) ∨
      page (step zod app event).1 = None) ∧
     (genre_records data → genre_list (step zod app event).1 = Some data) ∧
     (¬ readable_genres data → page (step zod app event).1 = None)) ∧
  (∀ i,
     event = FetchRejected i →
     (step zod app event).2 = [] ∧
     page (step zod app event).1 = page app ∧
     pathname (step zod app event).1 = pathname app) ∧
  (∀ i,
     i ∈ pending app →
     i ∈ pending (step zod app event).1 ∨
     (∃ data, event = FetchResolved i data) ∨ event = FetchRejected i) ∧
  (∀ location events,
     requests (session zod location events).2 =
     replicate (mounts (session zod location events).1)
       ("GET", "http://localhost:8000/genre")).
Proof.
  split; [|split; [|split; [|split; [|split]]]].
  - intros method url Hin.
    destruct (step_effects zod app event)
      as [Hnone|[(to & -> & Hbefore & Hafter & _ & Hsent)|(data & _ & Hlog)]].
    + rewrite Hnone in Hin. by apply elem_of_nil in Hin.
    + eauto.
    + rewrite Hlog in Hin. apply list_elem_of_singleton in Hin. discriminate.
  - intros Hbefore [data Hafter].
    destruct event as [to| |name value| |i response|i];
      try (by rewrite step_keeps_unmounted in Hafter).
    simpl in *. unfold genre_list in Hbefore, Hafter.
    destruct (navigate_cases to app); simpl in *; simplify_eq. reflexivity.
  - intros i genres form data -> Hpage Hpending. simpl.
    rewrite bool_decide_eq_true_2 by done. rewrite Hpage.
    rewrite bool_decide_eq_true_2 by done. cbn [fst settle page].
    unfold genre_list, rerender.
    pose proof (renders_readable i data form) as Hrenders.
    destruct (renders (AddMovieMounted i data form));
      (split; [by auto|]); split; try done.
    + intros Hdata. exfalso. by apply Hdata, Hrenders.
    + intros Hdata. apply genre_records_readable, Hrenders in Hdata. discriminate.
  - by intros i ->.
  - intros i Hpending.
    destruct event as [to| |name value| |j response|j]; simpl.
    + left. destruct (navigate_cases to app); simpl; auto. by right.
    + by left.
    + left. by destruct (page app) as [[|]|].
    + left. by destruct (page app) as [[|? ? form]|].
    + destruct (decide (i = j)) as [->|Hne]; [right; left; eauto|left].
      assert (i ∈ filter (fun k => k ≠ j) (pending app))
        by (apply list_elem_of_filter; auto).
      repeat case_match; simpl; auto.
    + destruct (decide (i = j)) as [->|Hne]; [by right; right|left].
      apply list_elem_of_filter; auto.
  - intros location events. unfold session.
    destruct (run_requests (Navigate location :: events) unopened) as (n & -> & ->).
    reflexivity.
Qed.

End Sessions.

(** ** What the router shows *)

(** The route of a location is the route of the page mounted there. *)
Lemma matchRoutes_router (location : string) :
  matchRoutes router location =
    match page_at location with
    | Some HomeC =>
        Some {| path := "/"; element := El "Layout" [] [El "Home" [] []] |}
    | Some AddMovieC =>
        Some {| path := "/add-movie"; element := El "Layout" [] [El "AddMovie" [] []] |}
    | None => None
    end.
Proof.
  unfold page_at, matchRoutes, router. cbn [find path].
  destruct (matchPath "/" _); [reflexivity|].
  destruct (matchPath "/add-movie" _); reflexivity.
Qed.

(** What the router shows: the layout around the page of the location. *)
Lemma view_spec (app : App) :
  view app =
    match page_at (pathname app), page app with
    | Some HomeC, Some (HomeMounted movies) =>
        Some (Layout (pathname app) [Home movies])
    | Some AddMovieC, Some (AddMovieMounted _ genres form) =>
        (fun e => Layout (pathname app) [e]) <$> rendered (AddMovie genres form)
    | _, _ => None
    end.
Proof.
  unfold view. rewrite matchRoutes_router.
  destruct (page_at (pathname app)) as [[|]|]; [| |reflexivity];
    cbn [mbind option_bind element render String.eqb Ascii.eqb Bool.eqb
         fmap option_fmap option_map mapM mret option_ret];
    destruct (page app) as [[movies|i genres form]|]; try reflexivity.
  by destruct (rendered (AddMovie genres form)).
Qed.

Lemma view_cases (app : App) (e : Element) :
  view app = Some e →
  (∃ movies, page app = Some (HomeMounted movies) ∧
             e = Layout (pathname app) [Home movies]) ∨
  (∃ i genres form e',
     page app = Some (AddMovieMounted i genres form) ∧
     rendered (AddMovie genres form) = Some e' ∧
     e = Layout (pathname app) [e']).
Proof.
  rewrite view_spec.
  destruct (page_at (pathname app)) as [[|]|]; [| |discriminate];
    destruct (page app) as [[movies|i genres form]|]; try discriminate.
  - intros [= <-]. left. eauto.
  - destruct (rendered (AddMovie genres form)) as [e'|] eqn:He'; [|discriminate].
    intros [= <-]. right. eauto 10.
Qed.

Lemma Layout_targets (pathname : string) (children : list Element) :
  targets (Layout pathname children) =
  [("/", "Movie App"); ("/", "Movies"); ("/add-movie", "Add Movie")] ++
  map (fun link => (to link, label link)) (flat_map links children).
Proof.
  unfold targets, Layout. simpl. by rewrite !app_nil_r.
Qed.

Lemma Layout_select_items (pathname : string) (child : Element) :
  elementsByTag "SelectItem" (Layout pathname [child]) = elementsByTag "SelectItem" child.
Proof.
  unfold Layout. simpl. by rewrite !app_nil_r.
Qed.

(** C7. The router has two routes, ["/"] for [Home] and ["/add-movie"] for
    [AddMovie], each with its page as the only child of [Layout]; so
    whatever the router shows is [Layout] around a page, and its links are
    the same three links to the same targets on both pages. *)
Theorem routes_share_layout (app : App) (e : Element) :
  view app = Some e →
  map path router = ["/"; "/add-movie"] ∧
  map element router =
    [El "Layout" [] [El "Home" [] []]; El "Layout" [] [El "AddMovie" [] []]] ∧
  (∃ page_element, e = Layout (pathname app) [page_element]) ∧
  targets e = [("/", "Movie App"); ("/", "Movies"); ("/add-movie", "Add Movie")].
Proof.
  intros Hview. split; [reflexivity|]. split; [reflexivity|].
  destruct (view_cases app e Hview)
    as [(movies & _ & ->)|(i & genres & form & e' & _ & He' & ->)].
  - split; [eauto|]. rewrite Layout_targets. cbn [flat_map]. rewrite app_nil_r.
    destruct (Home_rendered movies) as [-> _]. reflexivity.
  - split; [eauto|]. rewrite Layout_targets. cbn [flat_map]. rewrite app_nil_r.
    destruct (AddMovie_rendered genres form e' He') as (entries & _ & _ & _ & -> & _).
    reflexivity.
Qed.

Section Genres.

Variable zod : ZodVersion.

(** C9. The options of the genre select are made from the [genres] state,
    one per entry, wherever React renders the page. The state starts as the
    empty array and only a response changes it: in a session in which no
    response has arrived, rejections included, the state is the empty array
    and the select has no option. The module-level list of five genres is
    not what is rendered. *)
Theorem select_options_from_state (location : string) (events : list Event) :
  Forall (fun event => ∀ i data, event ≠ FetchResolved i data) events →
  (∀ data, genre_list (session zod location events).1 = Some data → data = VArray []) ∧
  (∀ e, view (session zod location events).1 = Some e →
        elementsByTag "SelectItem" e = []) ∧
  (∀ state form e,
     rendered (AddMovie state form) = Some e →
     ∃ entries, state = VArray entries ∧
                Forall2 is_select_item entries (elementsByTag "SelectItem" e)) ∧
  (∃ entries, genres = VArray entries ∧ length entries = 5).
Proof.
  intros Hevents.
  assert (∀ data, genre_list (session zod location events).1 = Some data →
                  data = VArray []) as Hempty.
  { unfold session.
    apply (run_invariant zod
             (fun app => ∀ data, genre_list app = Some data → data = VArray [])
             (fun event => ∀ i data, event ≠ FetchResolved i data)).
    - intros app event Hevent IH data Hdata.
      destruct (step_genre_list zod app event data Hevent Hdata); auto.
    - by constructor.
    - discriminate. }
  split; [exact Hempty|]. split; [|split].
  - intros e Hview.
    destruct (view_cases _ e Hview)
      as [(movies & _ & ->)|(i & state & form & e' & Hpage & He' & ->)];
      rewrite Layout_select_items.
    + by destruct (Home_rendered movies).
    + destruct (AddMovie_rendered state form e' He') as (entries & -> & _ & Hitems & _).
      specialize (Hempty (VArray entries)). unfold genre_list in Hempty.
      rewrite Hpage in Hempty. specialize (Hempty eq_refl). injection Hempty as ->.
      by inversion Hitems.
  - intros state form e He.
    destruct (AddMovie_rendered state form e He) as (entries & -> & _ & Hitems & _). eauto.
  - by eexists.
Qed.

End Genres.

(** ** The two shapes *)

Lemma parse_shape_keys (shape : list (string * Schema)) (input : list (string * Value)) :
  Forall (fun '(key, field) => reports (field (lookup_entry key input))) shape →
  (parse_shape shape input).2 = [] →
  map fst (parse_shape shape input).1 = map fst shape.
Proof.
  induction shape as [|[key field] rest IH]; intros Hreports; simpl; [done|].
  inversion Hreports as [|? ? Hfield Hrest]; subst. specialize (IH Hrest).
  destruct (parse_shape rest input) as [output issues]; simpl in *.
  destruct (field (lookup_entry key input)) as [data|field_issues]; simpl.
  - intros Hnone. by rewrite IH.
  - intros Hnone. apply app_eq_nil in Hnone as [Hnone _].
    destruct field_issues; [contradiction | discriminate].
Qed.

Lemma schema_output_keys (zod : ZodVersion) (input : list (string * Value)) (data : Value) :
  schema zod input = Success data →
  keys data = ["name"; "description"; "year"; "duration"; "genre_id"].
Proof.
  unfold schema, z_object. intros Hdata.
  assert (Forall (fun '(key, field) => reports (field (lookup_entry key input)))
            (shape zod)) as Hreports.
  { unfold shape. repeat constructor;
      auto using string_field_reports, number_field_reports. }
  pose proof (parse_shape_keys (shape zod) input Hreports) as Hkeys.
  destruct (parse_shape (shape zod) input) as [output [|issue issues]]; [|discriminate].
  injection Hdata as <-. exact (Hkeys eq_refl).
Qed.

(** C5, as the claim states it: the form schema and the movie record would
    share no field name but [year]. They share [description] too. *)
Lemma description_is_shared :
  ¬ (∀ key, key ∈ map fst (shape Zod4) → key ∈ keys movie → key = "year").
Proof.
  intros Honly. specialize (Honly "description"). simpl in Honly.
  discriminate Honly; rewrite !elem_of_cons; auto 10.
Qed.

(** C5, amended. The form schema has exactly the fields [name],
    [description], [year], [duration] and [genre_id]; the movie record has
    exactly [id], [title], [year], [genre], [rating] and [description]; the
    names they share are [year] and [description]. Nothing carries a value
    of one shape into the other: what the schema produces from form values
    has the five fields of the schema, so is never the movie record, and
    the movie list of the home page only ever holds the constant [movie]. *)
Theorem form_and_movie_shapes (zod : ZodVersion) (input : list (string * Value)) :
  map fst (shape zod) = ["name"; "description"; "year"; "duration"; "genre_id"] ∧
  keys movie = ["id"; "title"; "year"; "genre"; "rating"; "description"] ∧
  (∀ key, key ∈ map fst (shape zod) ∧ key ∈ keys movie ↔
          key = "year" ∨ key = "description") ∧
  (∀ data, schema zod input = Success data →
           keys data = ["name"; "description"; "year"; "duration"; "genre_id"] ∧
           data ≠ movie) ∧
  (∀ location events movies,
     movie_list (session zod location events).1 = Some movies →
     Forall (fun entry => entry = movie) movies).
Proof.
  split; [reflexivity|]. split; [reflexivity|]. split; [|split].
  - intros key. simpl. rewrite !elem_of_cons, !elem_of_nil. split.
    + intros [Hform Hmovie].
      destruct Hform as [->|[->|[->|[->|[->|[]]]]]]; auto;
        destruct Hmovie as [?|[?|[?|[?|[?|[?|[]]]]]]]; discriminate.
    + intros [-> | ->]; auto 10.
  - intros data Hdata. pose proof (schema_output_keys zod input data Hdata) as Hkeys.
    split; [exact Hkeys|]. intros ->. discriminate Hkeys.
  - intros location events movies Hmovies.
    rewrite (session_movie_list zod location events movies Hmovies).
    by repeat constructor.
Qed.

(** ** The field the form does not have *)

(** A string that differs from every entry of a list is not in it. *)
Ltac not_listed :=
  repeat (apply not_elem_of_cons; split; [discriminate|]); apply not_elem_of_nil.

Lemma lookup_entry_absent (key : string) (entries : list (string * Value)) :
  key ∉ map fst entries → lookup_entry key entries = VUndefined.
Proof.
  induction entries as [|[k v] entries IH]; [reflexivity|]. simpl.
  rewrite not_elem_of_cons. intros [Hne Hrest].
  destruct (String.eqb_spec k key); [congruence | auto].
Qed.

Lemma setValue_keys (name : string) (value : Value) (entries : list (string * Value)) :
  map fst (setValue name value entries) = map fst entries.
Proof.
  induction entries as [|[k v] entries IH]; [reflexivity|]. simpl.
  destruct (String.eqb k name); simpl; by rewrite ?IH.
Qed.

Section Duration.

Variable zod : ZodVersion.

Lemma step_fields_registered (app : App) (event : Event) :
  fields_registered app → fields_registered (step zod app event).1.
Proof.
  unfold fields_registered, form_of. intros IH form.
  destruct (step_page zod app event)
    as [| | | |? ? ? ? ? ? Hpage|? ? ? ? Hpage|? ? ? ? ? Hpage];
    try rewrite Hpage in IH; intros Hform; try discriminate Hform;
    try (injection Hform as <-); auto; simpl.
  - rewrite setValue_keys. by apply IH.
  - by apply IH.
  - unfold rerender in Hform. destruct (renders _); [|discriminate].
    injection Hform as <-. by eapply IH.
Qed.

(** Without a value for [duration] the schema takes no input. *)
Lemma duration_required (input : list (string * Value)) :
  map fst input = registered_fields → ¬ valid_input zod input.
Proof.
  intros Hkeys (_ & _ & _ & Hduration & _).
  rewrite lookup_entry_absent in Hduration.
  - destruct zod; simpl in Hduration; [congruence | by destruct Hduration].
  - rewrite Hkeys. unfold registered_fields. not_listed.
Qed.

Lemma step_never_logs (app : App) (event : Event) :
  fields_registered app → logged (step zod app event).2 = [].
Proof.
  intros Hfields.
  destruct (step_effects zod app event)
    as [->|[(to & _ & _ & _ & _ & ->)|(data & -> & Hlog)]]; try reflexivity.
  exfalso. revert Hlog. rewrite step_Submit.
  destruct (page app) as [[movies|i genres form]|] eqn:Hpage; cbn [snd];
    try discriminate.
  rewrite onSubmit_effects.
  pose proof (schema_succeeds zod (_formValues form)) as Hvalid.
  destruct (schema zod (_formValues form)); [|discriminate].
  intros _. eapply duration_required; [|by apply Hvalid].
  apply Hfields. unfold form_of. by rewrite Hpage.
Qed.

Lemma run_never_logs (events : list Event) (app : App) :
  fields_registered app → logged (run zod app events).2 = [].
Proof.
  revert app. induction events as [|event events IH]; intros app Hfields; [reflexivity|].
  simpl. pose proof (step_never_logs app event Hfields) as Hstep.
  pose proof (step_fields_registered app event Hfields) as Hnext.
  destruct (step zod app event) as [app' effects]. specialize (IH app' Hnext).
  destruct (run zod app' events) as [app'' effects']. simpl in *.
  unfold logged in *. by rewrite omap_app, Hstep, IH.
Qed.

(** In no session does a submission reach the callback: the schema requires
    [duration], and the form has no field of that name. *)
Lemma submit_never_logs (location : string) (events : list Event) :
  logged (session zod location events).2 = [].
Proof.
  apply run_never_logs. intros form. discriminate.
Qed.

(** No [FormMessage] of the form shows the error of [duration]. *)
Lemma duration_never_shown (state : Value) (form : Form) (e : Element)
    (formErrors : gmap string FieldError) :
  rendered (AddMovie state form) = Some e →
  "duration" ∉ (form_messages formErrors None e).*1.
Proof.
  intros He. destruct (AddMovie_rendered state form e He) as (_ & _ & _ & _ & _ & _ & ->).
  unfold shown. simpl. repeat case_match; simpl; not_listed.
Qed.

(** C6, on the form as it is first shown and submitted: the resolver
    reports an error for every field of the schema, [duration] included;
    the form shows the messages of its four fields, and that of [duration]
    nowhere; the callback does not run. *)
Theorem duration_error_not_shown :
  ∃ form e error,
    form_of (session zod "/add-movie" [Submit]).1 = Some form ∧
    view (session zod "/add-movie" [Submit]).1 = Some e ∧
    formErrors form !! "duration" = Some error ∧
    (form_messages (formErrors form) None e).*1 =
      ["name"; "year"; "genre_id"; "description"] ∧
    logged (session zod "/add-movie" [Submit]).2 = [].
Proof.
  destruct zod; do 3 eexists;
    (split; [vm_compute; reflexivity|]);
    (split; [vm_compute; reflexivity|]);
    (split; [vm_compute; reflexivity|]);
    split; vm_compute; reflexivity.
Qed.

End Duration.

(** * Further properties *)

(** ** The error object *)

Lemma find_app {A} (p : A → bool) (l1 l2 : list A) :
  find p (l1 ++ l2) = match find p l1 with
                      | Some x => Some x
                      | None => find p l2
                      end.
Proof.
  induction l1 as [|x l1 IH]; [reflexivity|]. simpl. by destruct (p x).
Qed.

(** The entry of a path is made from the first issue of that path. *)
Lemma parseErrorSchema_lookup (issues : list Issue) (p : string) :
  parseErrorSchema issues !! p =
  to_error <$> find (fun issue => String.eqb (String.concat "." (issue_path issue)) p) issues.
Proof.
  unfold parseErrorSchema.
  cut (∀ acc : gmap string FieldError,
         foldl
           (fun errors issue =>
              let _path := String.concat "." (issue_path issue) in
              match errors !! _path with
              | Some _ => errors
              | None =>
                  <[_path := {| message := issue_message issue;
                                type := issue_code issue |}]> errors
              end) acc issues !! p =
         match acc !! p with
         | Some error => Some error
         | None =>
             to_error <$>
               find (fun issue => String.eqb (String.concat "." (issue_path issue)) p) issues
         end).
  { intros H. by rewrite H, lookup_empty. }
  induction issues as [|issue issues IH]; intros acc; simpl.
  - by destruct (acc !! p).
  - rewrite IH. destruct (String.eqb_spec (String.concat "." (issue_path issue)) p) as [->|Hne].
    + destruct (acc !! p) as [error|] eqn:Hacc; [by rewrite Hacc|].
      by rewrite lookup_insert_eq.
    + destruct (acc !! String.concat "." (issue_path issue)); [done|].
      by rewrite lookup_insert_ne.
Qed.

Lemma find_at_key (key p : string) (issues : list Issue) :
  Forall (fun issue => issue_path issue = []) issues →
  find (fun issue => String.eqb (String.concat "." (issue_path issue)) p)
       (map (at_key key) issues) =
  if String.eqb key p then head (map (at_key key) issues) else None.
Proof.
  induction 1 as [|issue issues Hpath _ IH]; simpl.
  - by destruct (String.eqb key p).
  - rewrite Hpath. simpl. destruct (String.eqb key p); [done | exact IH].
Qed.

(** A key that the shape does not have gets no error. *)
Lemma parse_shape_no_error (shape : list (string * Schema)) (input : list (string * Value))
    (key : string) :
  Forall (fun '(_, field) => pathless field) shape →
  key ∉ map fst shape →
  parseErrorSchema (parse_shape shape input).2 !! key = None.
Proof.
  rewrite parseErrorSchema_lookup.
  induction shape as [|[k field] rest IH]; intros Hpathless Hkey; [reflexivity|].
  inversion Hpathless as [|? ? Hfield Hrest]; subst.
  simpl in Hkey. apply not_elem_of_cons in Hkey as [Hne Hkey].
  specialize (IH Hrest Hkey). specialize (Hfield (lookup_entry k input)). simpl.
  destruct (parse_shape rest input) as [output issues]; simpl in *.
  destruct (field (lookup_entry k input)) as [data|field_issues]; simpl; [exact IH|].
  rewrite find_app, find_at_key by done.
  destruct (String.eqb_spec k key); [congruence | exact IH].
Qed.

(** Each key of the shape gets the error of its own field, whatever the
    other fields hold. *)
Lemma parse_shape_error (shape : list (string * Schema)) (input : list (string * Value))
    (key : string) (field : Schema) :
  NoDup (map fst shape) →
  Forall (fun '(_, field) => pathless field) shape →
  (key, field) ∈ shape →
  parseErrorSchema (parse_shape shape input).2 !! key =
  field_error (field (lookup_entry key input)).
Proof.
  induction shape as [|[k f] rest IH]; intros Hnodup Hpathless Hin.
  { by apply elem_of_nil in Hin. }
  simpl in Hnodup. apply NoDup_cons in Hnodup as [Hfresh Hnodup].
  inversion Hpathless as [|? ? Hf Hrest]; subst.
  apply elem_of_cons in Hin as [[= -> ->]|Hin].
  - pose proof (parse_shape_no_error rest input k Hrest Hfresh) as Hnone.
    rewrite parseErrorSchema_lookup in *. specialize (Hf (lookup_entry k input)). simpl.
    destruct (parse_shape rest input) as [output issues]; simpl in *.
    destruct (f (lookup_entry k input)) as [data|[|issue field_issues]]; simpl;
      try exact Hnone.
    inversion Hf as [|? ? Hpath _]; subst. rewrite Hpath. simpl.
    by rewrite String.eqb_refl.
  - assert (k ≠ key) as Hne.
    { intros ->. apply Hfresh. apply list_elem_of_fmap. by exists (key, field). }
    specialize (IH Hnodup Hrest Hin).
    rewrite parseErrorSchema_lookup in *. specialize (Hf (lookup_entry k input)). simpl.
    destruct (parse_shape rest input) as [output issues]; simpl in *.
    destruct (f (lookup_entry k input)) as [data|field_issues]; simpl; [exact IH|].
    rewrite find_app, find_at_key by done.
    destruct (String.eqb_spec k key); [congruence | exact IH].
Qed.

Lemma field_error_None (result : SafeParse) :
  reports result → (field_error result = None ↔ succeeds result = true).
Proof.
  destruct result as [data|[|issue issues]]; simpl; intros Hreports;
    split; try done.
Qed.

Section ErrorObject.

Variable zod : ZodVersion.

Lemma string_field_pathless (n : nat) (msg : string) (params : Params) :
  pathless (min n msg (z_string zod params)).
Proof.
  intros v. unfold min, z_string.
  destruct v; simpl; try by repeat constructor.
  destruct (n <=? String.length s)%nat; by repeat constructor.
Qed.

Lemma number_field_pathless (params : Params) :
  pathless (z_coerce_number zod params).
Proof.
  intros v. unfold z_coerce_number.
  destruct (number_accepted zod (ToNumber v)); by repeat constructor.
Qed.

Lemma shape_pathless : Forall (fun '(_, field) => pathless field) (shape zod).
Proof.
  unfold shape.
  repeat constructor; auto using string_field_pathless, number_field_pathless.
Qed.

Lemma shape_NoDup : NoDup (map fst (shape zod)).
Proof.
  simpl. repeat (apply NoDup_cons; split; [not_listed|]). apply NoDup_nil_2.
Qed.

(** The resolver's errors are made from the issues of the fields. *)
Lemma zodResolver_errors (input : list (string * Value)) :
  errors (zodResolver (schema zod) input) =
  parseErrorSchema (parse_shape (shape zod) input).2.
Proof.
  unfold zodResolver, schema, z_object.
  by destruct (parse_shape (shape zod) input) as [output [|issue issues]].
Qed.

Lemma resolver_error (input : list (string * Value)) (key : string) (field : Schema) :
  (key, field) ∈ shape zod →
  errors (zodResolver (schema zod) input) !! key =
  field_error (field (lookup_entry key input)).
Proof.
  intros Hin. rewrite zodResolver_errors.
  apply parse_shape_error; auto using shape_NoDup, shape_pathless.
Qed.

End ErrorObject.

Section Validation.

Variable zod : ZodVersion.

Lemma schema_field_in_shape (key : string) :
  key ∈ map fst (shape zod) → (key, schema_field zod key) ∈ shape zod.
Proof.
  simpl. rewrite !elem_of_cons, elem_of_nil.
  intros [->|[->|[->|[->|[->|[]]]]]]; unfold schema_field, shape; simpl;
    repeat first [apply list_elem_of_here | apply list_elem_of_further].
Qed.

Lemma schema_field_error (input : list (string * Value)) (key : string) :
  key ∈ map fst (shape zod) →
  errors (zodResolver (schema zod) input) !! key =
  field_error (schema_field zod key (lookup_entry key input)).
Proof.
  intros Hkey. by apply resolver_error, schema_field_in_shape.
Qed.

(** X1. The error object of a submission has an entry for a field of the
    schema exactly when that field's own rule fails, whatever the other
    fields hold: all five fields are checked, none hides another. It has no
    entry under any other key. *)
Theorem errors_per_field (input : list (string * Value)) :
  (errors (zodResolver (schema zod) input) !! "name" = None ↔
   string_of_min_length 2 (lookup_entry "name" input)) ∧
  (errors (zodResolver (schema zod) input) !! "description" = None ↔
   string_of_min_length 10 (lookup_entry "description" input)) ∧
  (errors (zodResolver (schema zod) input) !! "year" = None ↔
   coerces_to_number zod (lookup_entry "year" input)) ∧
  (errors (zodResolver (schema zod) input) !! "duration" = None ↔
   coerces_to_number zod (lookup_entry "duration" input)) ∧
  (errors (zodResolver (schema zod) input) !! "genre_id" = None ↔
   coerces_to_number zod (lookup_entry "genre_id" input)) ∧
  (∀ key, is_Some (errors (zodResolver (schema zod) input) !! key) →
          key ∈ ["name"; "description"; "year"; "duration"; "genre_id"]).
Proof.
  repeat split;
    try (rewrite schema_field_error by (simpl; rewrite !elem_of_cons; auto 10);
         unfold schema_field; simpl;
         first [ rewrite field_error_None by apply string_field_reports;
                 apply string_field_succeeds
               | rewrite field_error_None by apply number_field_reports;
                 apply number_field_succeeds ]).
  intros key [error Herror].
  destruct (decide (key ∈ map fst (shape zod))) as [Hin|Hout]; [exact Hin|].
  rewrite zodResolver_errors in Herror.
  rewrite (parse_shape_no_error _ _ _ (shape_pathless zod) Hout) in Herror.
  discriminate.
Qed.

(** X2. The error of a number field is the same whatever made the field
    fail, a missing value or one that is no number: its type is
    [invalid_type] and its message depends on the version of the library
    alone, so of the two messages the source gives each number field, one
    is never shown. A string that is too short gets [too_small] with the
    message of [.min]. *)
Theorem field_messages (input : list (string * Value)) (error : FieldError) :
  (errors (zodResolver (schema zod) input) !! "year" = Some error →
   error = {| type := "invalid_type";
              message := match zod with
                         | Zod3 => "Year must be a number"
                         | Zod4 => "Movie year is required"
                         end |}) ∧
  (errors (zodResolver (schema zod) input) !! "duration" = Some error →
   error = {| type := "invalid_type";
              message := match zod with
                         | Zod3 => "Duration must be a number"
                         | Zod4 => "Movie duration is required"
                         end |}) ∧
  (errors (zodResolver (schema zod) input) !! "genre_id" = Some error →
   error = {| type := "invalid_type";
              message := match zod with
                         | Zod3 => "Genre must be a number"
                         | Zod4 => "Movie genre is required"
                         end |}) ∧
  (∀ s, lookup_entry "name" input = VString s →
        errors (zodResolver (schema zod) input) !! "name" = Some error →
        error = {| type := "too_small";
                   message := "Name must be at least 2 characters" |}) ∧
  (∀ s, lookup_entry "description" input = VString s →
        errors (zodResolver (schema zod) input) !! "description" = Some error →
        error = {| type := "too_small";
                   message := "Description must be at least 10 characters" |}).
Proof.
  repeat split; try intros s Hs;
    rewrite schema_field_error by (simpl; rewrite !elem_of_cons; auto 10);
    unfold schema_field; simpl.
  1-3: unfold z_coerce_number;
       destruct (number_accepted zod (ToNumber _)); simpl; [discriminate|];
       intros [= <-]; by destruct zod.
  all: rewrite Hs; unfold min, z_string;
       match goal with |- context [(?n <=? ?m)%nat] => destruct (n <=? m)%nat end;
       simpl; [discriminate|]; by intros [= <-].
Qed.

(** X3. What the schema hands on when it takes the form values: the
    schema succeeds exactly on the inputs whose five fields pass their
    rules, and then with an object of exactly the five fields, [name] and
    [description] as they were entered and [year], [duration] and
    [genre_id] replaced by the numbers they coerce to. Any other property
    of the input is dropped. *)
Theorem schema_output (input : list (string * Value)) (data : Value) :
  schema zod input = Success data ↔
  valid_input zod input ∧
  data = VObject
           [ ("name", lookup_entry "name" input);
             ("description", lookup_entry "description" input);
             ("year", VNumber (ToNumber (lookup_entry "year" input)));
             ("duration", VNumber (ToNumber (lookup_entry "duration" input)));
             ("genre_id", VNumber (ToNumber (lookup_entry "genre_id" input))) ].
Proof.
  split.
  - intros Hdata. split; [|by apply (schema_parsed zod)].
    apply schema_succeeds. by rewrite Hdata.
  - intros [Hvalid ->]. apply schema_succeeds in Hvalid.
    destruct (schema zod input) as [data|issues] eqn:Hdata; [|discriminate].
    f_equal. by apply (schema_parsed zod).
Qed.

End Validation.

(** ** Blank number fields *)

Lemma trim_start_blank (s : string) : blank s = true → trim_start s = "".
Proof.
  induction s as [|c s IH]; [reflexivity|]. simpl.
  destruct (is_whitespace c); [exact IH | discriminate].
Qed.

Lemma StringToNumber_blank (s : string) :
  blank s = true → StringToNumber s = of_Z 0.
Proof.
  intros Hblank. unfold StringToNumber, trim. by rewrite (trim_start_blank s Hblank).
Qed.

Section Blank.

Variable zod : ZodVersion.

(** X4. A number field left empty, or holding white space only, passes:
    it coerces to 0. A form whose [name] and [description] are long enough
    and whose [year], [duration] and [genre_id] are blank strings is taken,
    and the callback gets the three numbers as 0. *)
Theorem blank_numbers_accepted (form : Form) (name description year duration genre_id : string) :
  lookup_entry "name" (_formValues form) = VString name →
  lookup_entry "description" (_formValues form) = VString description →
  lookup_entry "year" (_formValues form) = VString year →
  lookup_entry "duration" (_formValues form) = VString duration →
  lookup_entry "genre_id" (_formValues form) = VString genre_id →
  (2 ≤ String.length name)%nat →
  (10 ≤ String.length description)%nat →
  blank year = true → blank duration = true → blank genre_id = true →
  (onSubmit zod form).2 =
    [ConsoleLog
       (VObject [ ("name", VString name);
                  ("description", VString description);
                  ("year", int 0); ("duration", int 0); ("genre_id", int 0) ])].
Proof.
  intros Hname Hdescription Hyear Hduration Hgenre Hlen2 Hlen10 Hy Hd Hg.
  rewrite onSubmit_effects.
  assert (valid_input zod (_formValues form)) as Hvalid.
  { unfold valid_input, string_of_min_length.
    rewrite Hname, Hdescription, Hyear, Hduration, Hgenre.
    repeat split; eauto;
      unfold coerces_to_number; simpl; rewrite StringToNumber_blank by done;
      destruct zod; eauto; discriminate. }
  apply schema_succeeds in Hvalid.
  destruct (schema zod (_formValues form)) as [data|] eqn:Hdata; [|discriminate].
  apply schema_parsed in Hdata. subst data.
  rewrite Hname, Hdescription, Hyear, Hduration, Hgenre. simpl.
  by rewrite !StringToNumber_blank.
Qed.

End Blank.

(** ** What the add-movie page can read *)

(** X5. The component function [AddMovie] returns its element whatever
    its state is; what may throw is a [render] prop, once the field calls
    it. The render props are those of the four fields, and only that of the
    genre field can throw. They all return exactly when the [genres] state
    is an array none of whose entries is [undefined] or [null]; on any
    other state, which the unvalidated response may well be, the render
    prop of the genre field throws, whatever the form holds. *)
Theorem AddMovie_renders_iff (state : Value) (form : Form) :
  map fst (render_props (AddMovie state form)) =
    ["name"; "year"; "genre_id"; "description"] ∧
  Forall (fun field => field.1 = "genre_id" ∨ is_Some field.2)
    (render_props (AddMovie state form)) ∧
  (Forall (fun field => is_Some field.2) (render_props (AddMovie state form)) ↔
   ∃ entries, state = VArray entries ∧ Forall readable entries) ∧
  (is_Some (rendered (AddMovie state form)) →
   Forall (fun field => is_Some field.2) (render_props (AddMovie state form))).
Proof.
  destruct (AddMovie_render_props state form) as [Hnames Hgenre].
  split; [exact Hnames|]. split; [exact Hgenre|]. split.
  - apply AddMovie_render_props_return.
  - intros [e He]. apply AddMovie_render_props_return.
    destruct (AddMovie_rendered state form e He) as (entries & -> & Hreadable & _).
    by exists entries.
Qed.

(** ** Sessions: what they do to the outside *)

Section Effects.

Variable zod : ZodVersion.

Lemma run_only_requests (events : list Event) (app : App) :
  fields_registered app →
  ∃ n, mounts (run zod app events).1 = (mounts app + n)%nat ∧
       (run zod app events).2 = replicate n (FetchRequest "GET" genre_url).
Proof.
  revert app. induction events as [|event events IH]; intros app Hfields; simpl.
  - exists 0%nat. split; [lia | reflexivity].
  - pose proof (step_effects zod app event) as Heffects.
    pose proof (step_mounts zod app event) as Hmounts.
    pose proof (step_never_logs zod app event Hfields) as Hlogs.
    pose proof (step_fields_registered zod app event Hfields) as Hnext.
    destruct (step zod app event) as [app' effects]; simpl in *.
    destruct (IH app' Hnext) as (n & Hn & Hrun).
    destruct (run zod app' events) as [app'' effects']; simpl in *. subst effects'.
    destruct Heffects as [->|[(to & -> & _ & _ & Hmount & ->)|(data & -> & ->)]];
      [| |discriminate Hlogs].
    + destruct Hmounts as [Hsame|(? & _ & [=] & _)].
      exists n. split; [lia | reflexivity].
    + exists (S n). split; [lia | reflexivity].
Qed.

Lemma session_fields_registered (location : string) (events : list Event) :
  fields_registered (session zod location events).1.
Proof.
  unfold session.
  apply (run_invariant zod fields_registered (fun _ => True)).
  - intros app event _. apply step_fields_registered.
  - by apply Forall_true.
  - intros form. discriminate.
Qed.

(** X6. In no session does the form go through. All a session ever does to
    the outside is send the genre request, once per mount of the add-movie
    page: nothing is ever logged. Whatever the form of a session holds,
    submitting it calls no callback, is recorded as unsuccessful and leaves
    an error for [duration], the field the form does not have. *)
Theorem form_never_submits (location : string) (events : list Event) :
  (session zod location events).2 =
    replicate (mounts (session zod location events).1)
      (FetchRequest "GET" "http://localhost:8000/genre") ∧
  (∀ form,
     form_of (session zod location events).1 = Some form →
     (onSubmit zod form).2 = [] ∧
     isSubmitSuccessful (onSubmit zod form).1 = false ∧
     is_Some (formErrors (onSubmit zod form).1 !! "duration")).
Proof.
  split.
  - unfold session.
    destruct (run_only_requests (Navigate location :: events) unopened) as (n & -> & ->);
      [intros form; discriminate | reflexivity].
  - intros form Hform.
    pose proof (session_fields_registered location events form Hform) as Hkeys.
    assert (is_Some (errors (zodResolver (schema zod) (_formValues form)) !! "duration"))
      as Hduration.
    { rewrite schema_field_error by (simpl; rewrite !elem_of_cons; auto 10).
      rewrite lookup_entry_absent by (rewrite Hkeys; unfold registered_fields; not_listed).
      unfold schema_field, z_coerce_number. simpl. by destruct zod. }
    assert (errors (zodResolver (schema zod) (_formValues form)) ≠ ∅) as Hnonempty.
    { intros Hempty. rewrite Hempty, lookup_empty in Hduration. by destruct Hduration. }
    unfold onSubmit, handleSubmit. simpl.
    by rewrite bool_decide_eq_false_2.
Qed.

End Effects.

(** ** Locations and pages *)

Lemma navigate_spec (to : string) (app : App) :
  navigate to app =
    match page_at to with
    | Some HomeC =>
        match page app with
        | Some (HomeMounted _) =>
            ({| pathname := to; page := page app;
                mounts := mounts app; pending := pending app |}, [])
        | _ =>
            ({| pathname := to; page := Some (HomeMounted initial_movies);
                mounts := mounts app; pending := pending app |}, [])
        end
    | Some AddMovieC =>
        match page app with
        | Some (AddMovieMounted _ _ _) =>
            ({| pathname := to; page := page app;
                mounts := mounts app; pending := pending app |}, [])
        | _ => (remounted to app, [FetchRequest "GET" genre_url])
        end
    | None =>
        ({| pathname := to; page := None;
            mounts := mounts app; pending := pending app |}, [])
    end.
Proof.
  unfold navigate. fold (page_at to).
  destruct (page_at to) as [[|]|]; by destruct (page app) as [[|]|].
Qed.

(** The links to ["/"] and ["/add-movie"] lead to the two pages. *)
Lemma page_at_links : page_at "/" = Some HomeC ∧ page_at "/add-movie" = Some AddMovieC.
Proof. split; vm_compute; reflexivity. Qed.

Lemma empty_renders (i : nat) (form : Form) :
  renders (AddMovieMounted i (VArray []) form) = true.
Proof.
  apply renders_readable. exists []. split; [reflexivity | constructor].
Qed.

Section Locations.

Variable zod : ZodVersion.

(** What holds once the application is opened and is kept by every step
    holds throughout a session. *)
Lemma session_invariant (P : App → Prop) (allowed : Event → Prop) :
  (∀ location, P (navigate location unopened).1) →
  (∀ app event, allowed event → P app → P (step zod app event).1) →
  ∀ location events, Forall allowed events → P (session zod location events).1.
Proof.
  intros Hopen Hstep location events Hevents. unfold session.
  change (run zod unopened (Navigate location :: events))
    with (let '(app', effects) := navigate location unopened in
          let '(app'', effects') := run zod app' events in
          (app'', effects ++ effects')).
  pose proof (Hopen location) as Hfirst.
  destruct (navigate location unopened) as [app' effects].
  pose proof (run_invariant zod P allowed Hstep events app' Hevents Hfirst) as Hlast.
  by destruct (run zod app' events).
Qed.

Lemma step_located (app : App) (event : Event) :
  located app → located (step zod app event).1.
Proof.
  unfold located. intros Hlocated.
  destruct event as [to| |name value| |j data|j].
  - simpl. rewrite navigate_spec.
    destruct (page_at to) as [[|]|] eqn:Hto;
      destruct (page app) as [[movies|k genres form]|];
      cbn [fst page pathname remounted]; rewrite ?Hto; try tauto; try done.
    all: split; [reflexivity | apply empty_renders].
  - done.
  - simpl. destruct (page app) as [[movies|k genres form]|] eqn:Hpage; simpl;
      rewrite ?Hpage; try done.
  - rewrite step_Submit.
    destruct (page app) as [[movies|k genres form]|] eqn:Hpage; cbn [fst page pathname];
      rewrite ?Hpage; try done.
    destruct Hlocated as [Hat Hrenders]. split; [exact Hat|].
    apply renders_readable. by apply renders_readable in Hrenders.
  - simpl. case_bool_decide as Hj; [|done].
    destruct (page app) as [[movies|k genres form]|] eqn:Hpage;
      [exact Hlocated | | exact Hlocated].
    case_bool_decide as Hk; [|exact Hlocated].
    cbn [fst settle page pathname]. unfold rerender.
    destruct (renders (AddMovieMounted k data form)) eqn:Hrenders.
    + tauto.
    + destruct Hlocated as [-> _]. discriminate.
  - simpl. by destruct (page app) as [[movies|k genres form]|].
Qed.

Lemma session_located (location : string) (events : list Event) :
  located (session zod location events).1.
Proof.
  apply (session_invariant located (fun _ => True)).
  - intros start. rewrite navigate_spec. unfold located.
    destruct (page_at start) as [[|]|] eqn:Hstart; simpl; rewrite Hstart;
      first [done | split; [reflexivity | exact (empty_renders _ _)]].
  - intros app event _. apply step_located.
  - by apply Forall_true.
Qed.

(** As long as the page can read every response, a page is mounted
    wherever a route matches. *)
Lemma step_shown (app : App) (event : Event) :
  readable_response event →
  (page app = None → page_at (pathname app) = None) →
  page (step zod app event).1 = None → page_at (pathname (step zod app event).1) = None.
Proof.
  intros Hevent Hshown.
  destruct event as [to| |name value| |j data|j].
  - cbn [step]. rewrite navigate_spec.
    destruct (page_at to) as [[|]|] eqn:Hto;
      destruct (page app) as [[movies|k genres form]|];
      cbn [fst page pathname remounted]; done.
  - done.
  - cbn [step]. destruct (page app) as [[movies|k genres form]|] eqn:Hpage;
      cbn [fst page pathname]; first [done | intros; congruence | auto].
  - rewrite step_Submit. destruct (page app) as [[movies|k genres form]|] eqn:Hpage;
      cbn [fst page pathname]; first [done | intros; congruence | auto].
  - cbn [step]. case_bool_decide as Hj; [|done].
    destruct (page app) as [[movies|k genres form]|] eqn:Hpage;
      cbn [fst settle page pathname]; rewrite ?Hpage; try done; try (intros; congruence).
    case_bool_decide as Hk; cbn [fst settle page pathname]; rewrite ?Hpage; [|done].
    cbn [fst settle page pathname]. unfold rerender.
    rewrite (proj2 (renders_readable k data form)); [done|].
    by eapply Hevent.
  - cbn [step fst settle page pathname]. exact Hshown.
Qed.

(** X8. What a session shows is decided by where it is, until a response
    comes that the add-movie page cannot read. At a location of the route
    ["/"] the router shows the layout around the home page with its four
    movies. At a location of the route ["/add-movie"] it shows the layout
    around the add-movie page, rendered on its state; or, once the render
    of that page has thrown, no page, the router showing its error element
    and no element of the application, which does not happen in a session
    whose responses are all lists of genres. At a location of neither route
    no page is mounted and the router shows no element of the
    application. *)
Theorem location_decides_page (location : string) (events : list Event) :
  (page_at (pathname (session zod location events).1) = Some HomeC →
   view (session zod location events).1 =
     Some (Layout (pathname (session zod location events).1)
             [Home [movie; movie; movie; movie]])) ∧
  (page_at (pathname (session zod location events).1) = Some AddMovieC →
   (∃ i state form e,
      page (session zod location events).1 = Some (AddMovieMounted i state form) ∧
      rendered (AddMovie state form) = Some e ∧
      view (session zod location events).1 =
        Some (Layout (pathname (session zod location events).1) [e])) ∨
   (¬ Forall genre_response events ∧
    page (session zod location events).1 = None ∧
    view (session zod location events).1 = None)) ∧
  (page_at (pathname (session zod location events).1) = None →
   page (session zod location events).1 = None ∧
   view (session zod location events).1 = None).
Proof.
  pose proof (session_located location events) as Hlocated.
  unfold located in Hlocated. rewrite view_spec.
  destruct (page (session zod location events).1) as [[movies|i state form]|] eqn:Hpage.
  - destruct Hlocated as [Hhome ->]. rewrite Hhome.
    split; [done|]. split; intros [=].
  - destruct Hlocated as [Hadd Hrenders]. rewrite Hadd.
    split; [intros [=]|]. split; [|intros [=]].
    intros _. left. unfold renders in Hrenders.
    destruct (rendered (AddMovie state form)) as [e|] eqn:He; [|discriminate].
    by exists i, state, form, e.
  - split; [by intros Hhome|]. split.
    + intros Hadd. right. split; [|by rewrite Hadd].
      intros Hevents.
      assert (Forall readable_response events) as Hreadable.
      { eapply Forall_impl; [exact Hevents|].
        intros event Hgenres j data ->. by eapply genre_records_readable, Hgenres. }
      assert (page (session zod location events).1 = None →
              page_at (pathname (session zod location events).1) = None) as Hshown.
      { apply (session_invariant
                 (fun app => page app = None → page_at (pathname app) = None)
                 readable_response); [| |exact Hreadable].
        - intros start. rewrite navigate_spec.
          by destruct (page_at start) as [[|]|] eqn:Hstart.
        - intros app event. apply step_shown. }
      rewrite (Hshown Hpage) in Hadd. discriminate.
    + intros Hnone. by rewrite Hnone.
Qed.

(** X9. Leaving the add-movie page and coming back starts it afresh: the
    fetched genres and everything the form held are gone, the state is the
    empty array and an empty form again, and the genre request is sent
    anew. Going to a location of the page while it is shown, with a list
    of genres for its state, keeps everything and sends nothing. *)
Theorem leaving_resets (app : App) (i : nat) (state : Value) (form : Form)
    (away back : string) :
  page app = Some (AddMovieMounted i state form) →
  page_at away = Some HomeC →
  page_at back = Some AddMovieC →
  run zod app [Navigate away; Navigate back] =
    ({| pathname := back;
        page := Some (AddMovieMounted (mounts app) (VArray [])
                        (useForm registered_fields));
        mounts := S (mounts app);
        pending := mounts app :: pending app |},
     [FetchRequest "GET" "http://localhost:8000/genre"]) ∧
  (genre_records state →
   step zod app (Navigate back) =
     ({| pathname := back; page := Some (AddMovieMounted i state form);
         mounts := mounts app; pending := pending app |}, [])).
Proof.
  intros Hpage Haway Hback. split.
  - simpl. rewrite navigate_spec, Haway, Hpage. cbn [fst snd].
    rewrite navigate_spec, Hback. reflexivity.
  - intros _. simpl. by rewrite navigate_spec, Hback, Hpage.
Qed.

Lemma navigation_inactive (location : string) (children : list Element) :
  location ≠ "/" → location ≠ "/add-movie" →
  Forall (fun link => is_active link = false) (navigation (Layout location children)).
Proof.
  intros Hhome Hadd. unfold navigation, Layout.
  cbn [elementsByTag String.eqb Ascii.eqb Bool.eqb app].
  destruct (String.eqb_spec location "/"); [done|].
  destruct (String.eqb_spec location "/add-movie"); [done|].
  vm_compute. by repeat constructor.
Qed.

(** X10. The router and the layout read the location differently: the
    router matches the decoded pathname, without regard to case or to
    slashes at its end, while the layout compares the pathname as it is
    written for equality. At every location that shows a page but is not
    spelled ["/"] or ["/add-movie"], the page is shown and no link of the
    navigation is highlighted. *)
Theorem highlight_needs_exact_path (location : string) :
  page_at location = Some HomeC ∨ page_at location = Some AddMovieC →
  location ≠ "/" → location ≠ "/add-movie" →
  ∃ e, view (session zod location []).1 = Some e ∧
       Forall (fun link => is_active link = false) (navigation e).
Proof.
  intros Hmatch Hhome Hadd. unfold session. cbn [run step fst snd].
  rewrite view_spec, navigate_spec.
  destruct Hmatch as [Hmatch|Hmatch]; rewrite Hmatch; cbn [fst pathname page unopened remounted];
    rewrite Hmatch.
  - eexists. split; [reflexivity|]. by apply navigation_inactive.
  - destruct (AddMovie_renders [] (useForm registered_fields)) as [e He]; [constructor|].
    rewrite He. eexists. split; [reflexivity|]. by apply navigation_inactive.
Qed.

(** X11. No link of the application is dead. Every link of what is shown
    goes to ["/"] or to ["/add-movie"]; following it shows the page of that
    route, and there the link of the navigation that carries this target,
    and no other, is highlighted. *)
Theorem links_lead_to_pages (app : App) (e : Element) (link : LinkEl) :
  view app = Some e →
  link ∈ links e →
  (to link = "/" ∨ to link = "/add-movie") ∧
  ∃ e',
    view (step zod app (Navigate (to link))).1 = Some e' ∧
    (to link = "/" → is_Some (movie_list (step zod app (Navigate (to link))).1)) ∧
    (to link = "/add-movie" →
     is_Some (genre_list (step zod app (Navigate (to link))).1)) ∧
    map (fun l => (label l, is_active l)) (navigation e') =
      [ ("Movie App", false);
        ("Movies", bool_decide (to link = "/"));
        ("Add Movie", bool_decide (to link = "/add-movie")) ].
Proof.
  intros Hview Hlink.
  assert (to link = "/" ∨ to link = "/add-movie") as Hto.
  { assert ((to link, label link) ∈ targets e) as Htarget.
    { unfold targets. apply list_elem_of_fmap. by exists link. }
    destruct (view_cases app e Hview)
      as [(movies & _ & ->)|(i & genres & form & e' & _ & He' & ->)];
      rewrite Layout_targets in Htarget; cbn [flat_map] in Htarget;
      rewrite app_nil_r in Htarget.
    - destruct (Home_rendered movies) as [Hnone _]. rewrite Hnone in Htarget.
      simpl in Htarget. rewrite !elem_of_cons, elem_of_nil in Htarget.
      destruct Htarget as [[= -> _]|[[= -> _]|[[= -> _]|[]]]]; auto.
    - destruct (AddMovie_rendered genres form e' He') as (_ & _ & _ & _ & Hnone & _).
      rewrite Hnone in Htarget.
      simpl in Htarget. rewrite !elem_of_cons, elem_of_nil in Htarget.
      destruct Htarget as [[= -> _]|[[= -> _]|[[= -> _]|[]]]]; auto. }
  split; [exact Hto|].
  destruct page_at_links as [Hhome Hadd].
  destruct Hto as [-> | ->]; cbn [step]; rewrite view_spec, navigate_spec.
  - rewrite Hhome.
    destruct (page app) as [[movies|i genres form]|]; cbn [fst pathname page];
      rewrite Hhome;
      (eexists; split; [reflexivity|]);
      (split; [intros _; by eexists|]); (split; [discriminate|]);
      vm_compute; reflexivity.
  - rewrite Hadd.
    destruct (view_cases app e Hview)
      as [(movies & -> & _)|(i & genres & form & e' & -> & He' & _)];
      cbn [fst pathname page remounted]; rewrite Hadd.
    + destruct (AddMovie_renders [] (useForm registered_fields)) as [e0 He0]; [constructor|].
      rewrite He0. eexists. split; [reflexivity|].
      split; [discriminate|]. split; [intros _; by eexists|].
      vm_compute; reflexivity.
    + rewrite He'. eexists. split; [reflexivity|].
      split; [discriminate|]. split; [intros _; by eexists|].
      vm_compute; reflexivity.
Qed.

End Locations.

(** ** Visits of the add-movie page *)

Section Visits.

Variable zod : ZodVersion.

(** The instance of a mounted add-movie page is one of those mounted. *)
Lemma step_instance_bound (app : App) (event : Event) :
  (∀ i, instance_of app = Some i → (i < mounts app)%nat) →
  ∀ i, instance_of (step zod app event).1 = Some i → (i < mounts (step zod app event).1)%nat.
Proof.
  unfold instance_of. intros IH i.
  destruct event as [to| |name value| |j data|j].
  - simpl. destruct (navigate_cases to app); simpl; intros Hi; try discriminate.
    + by apply IH.
    + injection Hi as <-. lia.
  - apply IH.
  - simpl. destruct (page app) as [[movies|k genres form]|] eqn:Hpage; simpl;
      rewrite ?Hpage; intros Hi; try discriminate.
    by apply IH.
  - rewrite step_Submit.
    destruct (page app) as [[movies|k genres form]|] eqn:Hpage; simpl;
      rewrite ?Hpage; intros Hi; try discriminate.
    by apply IH.
  - simpl. case_bool_decide as Hj; [|apply IH].
    destruct (page app) as [[movies|k genres form]|] eqn:Hpage; simpl;
      rewrite ?Hpage; try discriminate.
    case_bool_decide as Hk; simpl; rewrite ?Hpage; [|intros Hi; by apply IH].
    unfold rerender. destruct (renders _); [|discriminate].
    intros Hi. by apply IH.
  - apply IH.
Qed.

Lemma session_instance_bound (location : string) (events : list Event) (i : nat) :
  instance_of (session zod location events).1 = Some i →
  (i < mounts (session zod location events).1)%nat.
Proof.
  revert i. unfold session.
  apply (run_invariant zod
           (fun app => ∀ i, instance_of app = Some i → (i < mounts app)%nat)
           (fun _ => True)).
  - intros app event _. apply step_instance_bound.
  - by apply Forall_true.
  - discriminate.
Qed.

Lemma step_settled_at (i : nat) (state : Value) (app : App) (event : Event) :
  settled_at i state app → settled_at i state (step zod app event).1.
Proof.
  unfold settled_at. intros (Hlt & Hpending & Hstate).
  destruct event as [to| |name value| |j data|j].
  - simpl. destruct (navigate_cases to app); simpl;
      (split; [lia|]); (split; [try done|]); try done.
    + apply not_elem_of_cons. split; [lia | done].
    + intros s f [= ? ? ?]. lia.
  - done.
  - simpl. destruct (page app) as [[movies|k genres form]|] eqn:Hpage; simpl;
      rewrite ?Hpage; (split; [done|]); (split; [done|]); try done.
    intros s f [= -> <- _]. by eapply Hstate.
  - rewrite step_Submit.
    destruct (page app) as [[movies|k genres form]|] eqn:Hpage; simpl;
      rewrite ?Hpage; (split; [done|]); (split; [done|]); try done.
    intros s f [= -> <- _]. by eapply Hstate.
  - assert (i ∉ filter (fun k => k ≠ j) (pending app)) as Hfiltered.
    { rewrite list_elem_of_filter. tauto. }
    simpl. case_bool_decide as Hj; [|done].
    destruct (page app) as [[movies|k genres form]|] eqn:Hpage;
      [by rewrite <- Hpage in * | | by rewrite <- Hpage in *].
    case_bool_decide as Hk; [|by rewrite <- Hpage in *].
    subst k. repeat split; try done. cbn [fst settle page]. unfold rerender.
    destruct (renders _); [|discriminate]. intros s f [= -> _ _]. done.
  - assert (i ∉ filter (fun k => k ≠ j) (pending app)) as Hfiltered.
    { rewrite list_elem_of_filter. tauto. }
    done.
Qed.

(** X7. The [genres] state is set at most once in a visit. The state of a
    mounted add-movie page is one the page can read; and once its request
    has settled, whatever happens next, the page, as long as it is the same
    instance, keeps the state it had then. *)
Theorem genres_set_once (location : string) (events later : list Event)
    (i : nat) (state : Value) (form : Form) :
  page (session zod location events).1 = Some (AddMovieMounted i state form) →
  i ∉ pending (session zod location events).1 →
  (∃ entries, state = VArray entries ∧ Forall readable entries) ∧
  ∀ state' form',
    page (run zod (session zod location events).1 later).1 =
      Some (AddMovieMounted i state' form') →
    state' = state.
Proof.
  intros Hpage Hpending. split.
  - pose proof (session_located zod location events) as Hlocated.
    unfold located in Hlocated. rewrite Hpage in Hlocated.
    destruct Hlocated as [_ Hrenders]. by apply renders_readable in Hrenders.
  - intros state' form' Hlater.
    assert (settled_at i state (run zod (session zod location events).1 later).1)
      as (_ & _ & Hstate).
    { apply (run_invariant zod (settled_at i state) (fun _ => True)).
      - intros app event _. apply step_settled_at.
      - by apply Forall_true.
      - repeat split; [|done|].
        + apply session_instance_bound. unfold instance_of. by rewrite Hpage.
        + intros s f. rewrite Hpage. by intros [= <- _]. }
    exact (Hstate state' form' Hlater).
Qed.

(** X12. A response that the add-movie page cannot read takes the page
    down. When the response of the mounted page is anything but an array of
    entries that are not [undefined] or [null], the render with it throws:
    the page is unmounted and the router shows no element of the
    application. Going to a location of the page then mounts it afresh,
    with the empty array, an empty form and a new request. *)
Theorem unreadable_response_unmounts (app : App) (i : nat) (genres : Value)
    (form : Form) (data : Value) (back : string) :
  page app = Some (AddMovieMounted i genres form) →
  i ∈ pending app →
  ¬ (∃ entries, data = VArray entries ∧ Forall readable entries) →
  page_at back = Some AddMovieC →
  page (step zod app (FetchResolved i data)).1 = None ∧
  view (step zod app (FetchResolved i data)).1 = None ∧
  (i ∉ pending (step zod app (FetchResolved i data)).1) ∧
  step zod (step zod app (FetchResolved i data)).1 (Navigate back) =
    ({| pathname := back;
        page := Some (AddMovieMounted (mounts app) (VArray [])
                        (useForm registered_fields));
        mounts := S (mounts app);
        pending := mounts app :: filter (fun j => j ≠ i) (pending app) |},
     [FetchRequest "GET" "http://localhost:8000/genre"]).
Proof.
  intros Hpage Hpending Hdata Hback.
  assert ((step zod app (FetchResolved i data)).1 = settle i app None) as ->.
  { simpl. rewrite bool_decide_eq_true_2 by done. rewrite Hpage.
    rewrite bool_decide_eq_true_2 by done. cbn [fst]. unfold rerender.
    destruct (renders (AddMovieMounted i data form)) eqn:Hrenders; [|reflexivity].
    by apply renders_readable in Hrenders. }
  split; [reflexivity|]. split; [|split].
  - rewrite view_spec. unfold settle. cbn [page pathname].
    by destruct (page_at (pathname app)) as [[|]|].
  - unfold settle. cbn [pending]. rewrite list_elem_of_filter. tauto.
  - cbn [step]. by rewrite navigate_spec, Hback.
Qed.

End Visits.

(** * The model at work *)

(** A form holding a value for every field of the schema, [duration]
    included, which the form of the page never does. *)
Definition filled : Form :=
  {| _formValues :=
       [ ("name", str "Up");
         ("description", str "An old man flies his house south.");
         ("year", str "2009");
         ("duration", str "96");
         ("genre_id", str "2") ];
     formErrors := ∅;
     isSubmitted := false;
     isSubmitting := false;
     isSubmitSuccessful := false;
     submitCount := 0 |}.

(** The add-movie page with that form, its request in flight. *)
Definition submitting : App :=
  {| pathname := "/add-movie";
     page := Some (AddMovieMounted 0 (VArray []) filled);
     mounts := 1;
     pending := [0] |}.

(** An empty field coerces to 0, and so do [null] and the empty array. *)
Example empty_coerces_to_zero :
  map ToNumber [str ""; str "  "; VNull; VArray []] = replicate 4 (of_Z 0).
Proof. reflexivity. Qed.

(** What does not coerce. *)
Example not_numbers :
  map ToNumber [VUndefined; str "abc"; str "12px"; str "1,5"; VObject []; VArray [int 1; int 2]]
  = replicate 6 NaN.
Proof. reflexivity. Qed.

(** A literal is read as the nearest double: 2^53 + 1 lies halfway between
    two doubles and goes to the even one, the two spellings of 2009 are the
    same number, the zeros keep their sign, and what is too small is 0. *)
Example nearest_doubles :
  StringToNumber "9007199254740993" = of_Z 9007199254740992 ∧
  StringToNumber "2009.0" = StringToNumber "2009" ∧
  StringToNumber "0.1" =
    Finite {| sign := false; significand := 7205759403792794; exponent := -56 |} ∧
  StringToNumber "-0" = Finite {| sign := true; significand := 0; exponent := -1074 |} ∧
  StringToNumber "0" = Finite {| sign := false; significand := 0; exponent := -1074 |} ∧
  StringToNumber "5e-324" =
    Finite {| sign := false; significand := 1; exponent := -1074 |} ∧
  StringToNumber "2e-324" = of_Z 0 ∧
  ToNumber (VArray [VNumber (StringToNumber "-0")]) = of_Z 0.
Proof. by vm_compute. Qed.

(** The versions of the library part on the infinities. *)
Example infinity_by_version :
  ToNumber (str "Infinity") = Infinity false ∧
  ToNumber (str "1e999") = Infinity false ∧
  ToNumber (str "1.7976931348623159e308") = Infinity false ∧
  ToNumber (str "-1.7976931348623157e308") =
    Finite {| sign := true; significand := 9007199254740991; exponent := 971 |} ∧
  number_accepted Zod3 (Infinity false) = true ∧
  number_accepted Zod4 (Infinity false) = false.
Proof. by vm_compute. Qed.

(** On a response that is no array of objects the component returns and
    the render throws. *)
Example unvalidated_response_throws (form : Form) :
  rendered (AddMovie (VObject [("detail", str "Not Found")]) form) = None ∧
  rendered (AddMovie (VArray [VNull]) form) = None.
Proof. split; reflexivity. Qed.

(** After such a response the next navigation to the page mounts it anew
    and sends the request again. *)
Example remount_after_throw :
  session Zod4 "/add-movie"
    [FetchResolved 0 (VObject [("detail", str "Not Found")]); Navigate "/add-movie/"] =
  ({| pathname := "/add-movie/";
      page := Some (AddMovieMounted 1 (VArray []) (useForm registered_fields));
      mounts := 2;
      pending := [1] |},
   [FetchRequest "GET" genre_url; FetchRequest "GET" genre_url]).
Proof. by vm_compute. Qed.

(** With a trailing slash the add-movie page is shown and no link is
    active. *)
Example trailing_slash :
  page_at "/add-movie/" = Some AddMovieC ∧
  map is_active (navigation (Layout "/add-movie/" [])) = [false; false; false].
Proof. by vm_compute. Qed.

(** The router matches what the escapes of a pathname stand for: an escaped
    hyphen is a hyphen, an escaped slash is no slash, and a pathname with a
    malformed escape is matched as it is written. *)
Example decoded_locations :
  decodePath "/add%2Dmovie" = units "/add-movie" ∧
  page_at "/add%2Dmovie" = Some AddMovieC ∧
  page_at "/ADD-MOVIE//" = Some AddMovieC ∧
  page_at "/add-movie%2F" = None ∧
  page_at "/%2F" = None ∧
  page_at "/add-movie/x" = None ∧
  page_at "" = Some HomeC ∧
  decodePath "/%E4%BD%A0" = [47; 20320]%Z ∧
  decodePath "/%F0%9F%98%80" = [47; 55357; 56832]%Z ∧
  decodePath "/%C0%80" = units "/%C0%80" ∧
  decodePath "/%ED%A0%80" = units "/%ED%A0%80" ∧
  decodePath "/a%2fb/%" = units "/a%2fb/%".
Proof. by vm_compute. Qed.

(** * Witnesses *)

Lemma submit_only_logs_witness :
  (step Zod4 submitting Submit).2 =
    [ConsoleLog
       (VObject [ ("name", str "Up");
                  ("description", str "An old man flies his house south.");
                  ("year", int 2009); ("duration", int 96); ("genre_id", int 2) ])].
Proof.
  destruct (submit_only_logs Zod4 submitting) as (_ & _ & Hlogs & _).
  apply (Hlogs filled); [reflexivity|].
  repeat split.
  - exists "Up". split; [reflexivity | simpl; lia].
  - eexists. split; [reflexivity | simpl; lia].
  - eexists. vm_compute. reflexivity.
  - eexists. vm_compute. reflexivity.
  - eexists. vm_compute. reflexivity.
Defined.

Lemma callback_iff_valid_witness :
  ∃ data, (onSubmit Zod4 filled).2 = [ConsoleLog data].
Proof.
  apply (proj1 (callback_iff_valid Zod4 filled)).
  repeat split.
  - exists "Up". split; [reflexivity | simpl; lia].
  - eexists. split; [reflexivity | simpl; lia].
  - eexists. vm_compute. reflexivity.
  - eexists. vm_compute. reflexivity.
  - eexists. vm_compute. reflexivity.
Defined.

Lemma movies_stay_initial_witness :
  ∃ movies,
    movie_list
      (session Zod4 "/"
         [ClickDelete 0; Navigate "/add-movie"; Submit; Navigate "/"; ClickDelete 3]).1
    = Some movies ∧
    movies = [movie; movie; movie; movie] ∧ length movies = 4.
Proof.
  eexists. split; [vm_compute; reflexivity|].
  apply (movies_stay_initial Zod4 "/"
           [ClickDelete 0; Navigate "/add-movie"; Submit; Navigate "/"; ClickDelete 3]).
  vm_compute. reflexivity.
Defined.

Lemma genre_request_witness :
  (step Zod4 (session Zod4 "/" []).1 (Navigate "/add-movie")).2 =
  [FetchRequest "GET" "http://localhost:8000/genre"].
Proof.
  apply (proj1 (genre_request Zod4 (session Zod4 "/" []).1 (Navigate "/add-movie"))
           "GET" "http://localhost:8000/genre").
  vm_compute. constructor.
Defined.

Lemma routes_share_layout_witness :
  ∃ e,
    view (session Zod4 "/add-movie" [FetchResolved 0 genres]).1 = Some e ∧
    map path router = ["/"; "/add-movie"] ∧
    map element router =
      [El "Layout" [] [El "Home" [] []]; El "Layout" [] [El "AddMovie" [] []]] ∧
    (∃ page_element, e = Layout "/add-movie" [page_element]) ∧
    targets e = [("/", "Movie App"); ("/", "Movies"); ("/add-movie", "Add Movie")].
Proof.
  eexists. split; [vm_compute; reflexivity|].
  apply (routes_share_layout (session Zod4 "/add-movie" [FetchResolved 0 genres]).1).
  vm_compute. reflexivity.
Defined.

Lemma home_ignores_movies_witness :
  Home [movie; movie] = Home [VNull; str "Up"] ∧
  elementsByTag "Card" (Home [VNull; str "Up"]) = [movie_card; movie_card].
Proof.
  destruct (home_ignores_movies [movie; movie] [VNull; str "Up"] eq_refl)
    as (Hsame & _ & Hcards & _).
  split; [exact Hsame|]. rewrite <- Hsame. exact Hcards.
Defined.

Lemma select_options_from_state_witness :
  ∃ e,
    view (session Zod4 "/add-movie" [FetchRejected 0; Submit]).1 = Some e ∧
    elementsByTag "SelectItem" e = [].
Proof.
  eexists. split; [vm_compute; reflexivity|].
  apply (select_options_from_state Zod4 "/add-movie" [FetchRejected 0; Submit]).
  - repeat constructor; discriminate.
  - vm_compute. reflexivity.
Defined.

Lemma form_and_movie_shapes_witness :
  ∃ data,
    schema Zod4 (_formValues filled) = Success data ∧
    keys data = ["name"; "description"; "year"; "duration"; "genre_id"] ∧
    data ≠ movie.
Proof.
  eexists. split; [vm_compute; reflexivity|].
  apply (form_and_movie_shapes Zod4 (_formValues filled)).
  vm_compute. reflexivity.
Defined.

Lemma field_messages_witness :
  ∃ error,
    errors (zodResolver (schema Zod3) [("year", str "soon")]) !! "year" = Some error ∧
    error = {| type := "invalid_type"; message := "Year must be a number" |}.
Proof.
  eexists. split; [vm_compute; reflexivity|].
  apply (proj1 (field_messages Zod3 [("year", str "soon")] _)).
  vm_compute. reflexivity.
Defined.

Lemma schema_output_witness :
  schema Zod4 [ ("name", str "Up");
                ("description", str "An old man flies his house south.");
                ("year", str "9007199254740993");
                ("duration", str "96.0");
                ("genre_id", str " 2 ");
                ("rating", str "8") ] =
    Success (VObject [ ("name", str "Up");
                       ("description", str "An old man flies his house south.");
                       ("year", int 9007199254740992);
                       ("duration", int 96); ("genre_id", int 2) ]).
Proof.
  apply (proj2 (schema_output Zod4 _ _)).
  split; [|vm_compute; reflexivity].
  repeat split.
  - exists "Up". split; [reflexivity | simpl; lia].
  - eexists. split; [reflexivity | simpl; lia].
  - eexists. vm_compute. reflexivity.
  - eexists. vm_compute. reflexivity.
  - eexists. vm_compute. reflexivity.
Defined.

Lemma blank_numbers_accepted_witness :
  (onSubmit Zod4 blank_numbers).2 =
    [ConsoleLog
       (VObject [ ("name", VString "Up");
                  ("description", VString "An old man flies his house south.");
                  ("year", int 0); ("duration", int 0); ("genre_id", int 0) ])].
Proof.
  apply (blank_numbers_accepted Zod4 blank_numbers "Up"
           "An old man flies his house south." "" "  " "");
    try reflexivity; simpl; lia.
Defined.

Lemma form_never_submits_witness :
  ∃ form,
    form_of (session Zod4 "/add-movie"
               [Change "name" (str "Up"); Change "year" (str "2009"); Submit]).1
    = Some form ∧
    (onSubmit Zod4 form).2 = [] ∧
    isSubmitSuccessful (onSubmit Zod4 form).1 = false ∧
    is_Some (formErrors (onSubmit Zod4 form).1 !! "duration").
Proof.
  eexists. split; [vm_compute; reflexivity|].
  apply (proj2 (form_never_submits Zod4 "/add-movie"
                  [Change "name" (str "Up"); Change "year" (str "2009"); Submit])).
  vm_compute. reflexivity.
Defined.

Lemma genres_set_once_witness :
  ∃ state' form',
    page (run Zod4 (session Zod4 "/add-movie" [FetchResolved 0 genres]).1
            [Submit; FetchResolved 0 (VArray []); Navigate "/Add-Movie/"; FetchRejected 0]).1
    = Some (AddMovieMounted 0 state' form') ∧
    state' = genres.
Proof.
  destruct (genres_set_once Zod4 "/add-movie" [FetchResolved 0 genres]
              [Submit; FetchResolved 0 (VArray []); Navigate "/Add-Movie/"; FetchRejected 0]
              0 genres (useForm registered_fields)) as [_ Hkept].
  - vm_compute. reflexivity.
  - vm_compute. apply not_elem_of_nil.
  - do 2 eexists. split; [vm_compute; reflexivity|].
    eapply Hkept. vm_compute. reflexivity.
Defined.

Lemma location_decides_page_witness :
  view (session Zod4 "//" [ClickDelete 1]).1 =
    Some (Layout "//" [Home [movie; movie; movie; movie]]).
Proof.
  apply (proj1 (location_decides_page Zod4 "//" [ClickDelete 1])).
  vm_compute. reflexivity.
Defined.

Lemma leaving_resets_witness :
  run Zod4 (session Zod4 "/add-movie" [FetchResolved 0 genres]).1
    [Navigate "/"; Navigate "/add-movie"] =
    ({| pathname := "/add-movie";
        page := Some (AddMovieMounted 1 (VArray []) (useForm registered_fields));
        mounts := 2;
        pending := [1] |},
     [FetchRequest "GET" "http://localhost:8000/genre"]).
Proof.
  destruct (leaving_resets Zod4 (session Zod4 "/add-movie" [FetchResolved 0 genres]).1
              0 genres (useForm registered_fields) "/" "/add-movie") as [Hfresh _].
  - vm_compute. reflexivity.
  - vm_compute. reflexivity.
  - vm_compute. reflexivity.
  - exact Hfresh.
Defined.

Lemma highlight_needs_exact_path_witness :
  ∃ e, view (session Zod4 "/Add%2DMovie/" []).1 = Some e ∧
       Forall (fun link => is_active link = false) (navigation e).
Proof.
  apply (highlight_needs_exact_path Zod4 "/Add%2DMovie/");
    [right; vm_compute; reflexivity | discriminate | discriminate].
Defined.

Lemma links_lead_to_pages_witness :
  ∃ e',
    view (step Zod4 (session Zod4 "/" []).1 (Navigate "/add-movie")).1 = Some e' ∧
    map (fun l => (label l, is_active l)) (navigation e') =
      [("Movie App", false); ("Movies", false); ("Add Movie", true)].
Proof.
  destruct (links_lead_to_pages Zod4 (session Zod4 "/" []).1
              (Layout "/" [Home initial_movies])
              {| to := "/add-movie";
                 link_class := "px-4 py-2 rounded-lg transition-colors text-foreground hover:bg-secondary hover:text-white";
                 label := "Add Movie" |})
    as (_ & e' & Hview & _ & _ & Hnavigation).
  - vm_compute. reflexivity.
  - vm_compute. do 2 apply list_elem_of_further. apply list_elem_of_here.
  - exists e'. split; [exact Hview | exact Hnavigation].
Defined.

Lemma unreadable_response_unmounts_witness :
  step Zod4
    (step Zod4 (session Zod4 "/add-movie" []).1
       (FetchResolved 0 (VObject [("detail", str "Not Found")]))).1
    (Navigate "/add-movie/") =
  ({| pathname := "/add-movie/";
      page := Some (AddMovieMounted 1 (VArray []) (useForm registered_fields));
      mounts := 2;
      pending := [1] |},
   [FetchRequest "GET" "http://localhost:8000/genre"]).
Proof.
  destruct (unreadable_response_unmounts Zod4 (session Zod4 "/add-movie" []).1
              0 (VArray []) (useForm registered_fields)
              (VObject [("detail", str "Not Found")]) "/add-movie/")
    as (_ & _ & _ & Hremount).
  - vm_compute. reflexivity.
  - vm_compute. apply list_elem_of_here.
  - intros (entries & [=] & _).
  - vm_compute. reflexivity.
  - exact Hremount.
Defined.
